(** * BitNet CUDA kernel binding: lazy loading, dispatch gate, eligibility

    A shallow embedding of
    [External/BitNet/3rdparty/llama.cpp/ggml/src/ggml-bitnet-cuda.cpp].

    The translation unit owns four file-scope variables (module handle,
    kernel function pointer, two flags) and talks to the outside through the
    platform's dynamic loader, through [fprintf(stderr, ...)] and through
    one indirect call of the resolved kernel.  Each exported C function
    becomes a program in a state-and-fault monad over a [world] that holds
    the four variables, the state of the operating system, the memory the
    caller's buffers live in, and the chronological list of external
    events.  The only faulting instruction of the file is the indirect call
    through [g_bitlinear_kernel]: calling through a null function pointer
    has no defined behaviour in C and is modelled as a fault. *)

From Stdlib Require Import NArith ZArith Bool List String Ascii Lia.
From Stdlib Require Import Strings.Byte.
Import ListNotations.

Local Open Scope string_scope.
Local Open Scope list_scope.

(** ** Values of the C program *)

(** Pointers ([LIBHANDLE], function pointers, buffers, [cudaStream_t],
    [const struct ggml_tensor*]) are addresses; [NULL] is address zero.
    C [int] arguments are carried as integers: the file only passes them
    on. *)
Definition ptr : Type := N.
Definition NULL : ptr := 0%N.

(** The C test [!p]. *)
Definition is_null (p : ptr) : bool := N.eqb p NULL.

(** Memory in which the caller's buffers live, byte addressed. *)
Definition memory : Type := ptr -> byte.

(** External events, in the order the program produces them.  The kernel
    call lists the nine actual arguments in the order of the
    [bitlinear_int8xint2_func] signature. *)
Inductive event : Type :=
| EvLoadLibrary (path : string) (result : ptr)
| EvGetProcAddress (lib : ptr) (symbol : string) (result : ptr)
| EvCloseLibrary (lib : ptr)
| EvStderr (text : string)
| EvKernelCall (fn : ptr)
               (input0 input1 output0 s ws : ptr) (M N K : Z) (stream : ptr).

(** ** The platform interface

    The [#ifdef _WIN32] block selects [LoadLibraryA]/[GetProcAddress]/
    [FreeLibrary] or [dlopen]/[dlsym]/[dlclose], and the library file name.
    What these system calls answer is outside the file: it depends on an
    operating-system state [OS] that they may also change.  [sys_call] is
    the behaviour of the code found at a non-null function address when
    called with the nine kernel arguments; it may write memory and change
    the operating-system state.  It cannot name the [static] variables of
    the file, and is taken not to call back into the exported functions. *)
Class Platform (OS : Type) : Type := {
  win32 : bool;
  sys_load : string -> OS -> ptr * OS;
  sys_symbol : ptr -> string -> OS -> ptr * OS;
  sys_close : ptr -> OS -> OS;
  sys_call : ptr -> ptr -> ptr -> ptr -> ptr -> ptr -> Z -> Z -> Z -> ptr ->
             OS -> memory -> OS * memory
}.

(** ** A test double for the platform

    A loader whose file system is a list of paths at which the module file
    is installed.  Every successful load answers the same handle; the
    module exports the kernel symbol or not; the stub kernel fills the
    [M*N] two-byte elements of its output buffer with a fixed byte.  The
    double counts load attempts and open handles. *)
Record stub_os : Type := mkStub {
  installed : list string;
  exports_kernel : bool;
  load_attempts : nat;
  open_handles : nat
}.

Definition stub_handle : ptr := 4096%N.
Definition stub_entry : ptr := 8192%N.

Definition stub_load (path : string) (o : stub_os) : ptr * stub_os :=
  if existsb (String.eqb path) (installed o)
  then (stub_handle,
        mkStub (installed o) (exports_kernel o)
               (S (load_attempts o)) (S (open_handles o)))
  else (NULL,
        mkStub (installed o) (exports_kernel o)
               (S (load_attempts o)) (open_handles o)).

Definition stub_symbol (lib : ptr) (symbol : string) (o : stub_os)
  : ptr * stub_os :=
  if N.eqb lib stub_handle && exports_kernel o
     && String.eqb symbol "bitlinear_int8xint2"
  then (stub_entry, o) else (NULL, o).

Definition stub_close (lib : ptr) (o : stub_os) : stub_os :=
  mkStub (installed o) (exports_kernel o)
         (load_attempts o) (Nat.pred (open_handles o)).

Definition stub_call (fn input0 input1 output0 s ws : ptr) (M N K : Z)
    (stream : ptr) (o : stub_os) (m : memory) : stub_os * memory :=
  (o, fun a => if (N.leb output0 a
                   && N.ltb a (output0 + 2 * Z.to_N (M * N)))%N
               then x2a else m a).

#[export] Instance stub_posix : Platform stub_os := {
  win32 := false;
  sys_load := stub_load;
  sys_symbol := stub_symbol;
  sys_close := stub_close;
  sys_call := stub_call
}.

(** Three machines: no module anywhere, a module in the fallback
    directory that lacks the symbol, and a complete module there. *)
Definition os_absent : stub_os := mkStub [] true 0 0.
Definition os_no_symbol : stub_os :=
  mkStub ["./libs/linux/bitnet-kernel/libbitnet.so"] false 0 0.
Definition os_complete : stub_os :=
  mkStub ["./libs/linux/bitnet-kernel/libbitnet.so"] true 0 0.

Definition zero_memory : memory := fun _ => x00.

Section BitNetCuda.

Context {OS : Type} {P : Platform OS}.

(** [#define BITNET_LIB_NAME] *)
Definition BITNET_LIB_NAME : string :=
  if win32 then "libbitnet.dll" else "libbitnet.so".

(** The explicit path of the second attempt (adjacent string literals
    are concatenated by the C compiler). *)
Definition BITNET_LIB_FALLBACK : string :=
  if win32 then "libs/windows/bitnet-kernel/" ++ BITNET_LIB_NAME
  else "./libs/linux/bitnet-kernel/" ++ BITNET_LIB_NAME.

Definition KERNEL_SYMBOL : string := "bitlinear_int8xint2".

(** ** Global state *)

Record world : Type := mkWorld {
  g_bitnet_lib : ptr;
  g_bitlinear_kernel : ptr;
  g_bitnet_initialized : bool;
  g_bitnet_available : bool;
  os : OS;
  heap : memory;
  trace : list event
}.

(** The values of the static initialisers, at process start. *)
Definition initial_world (o : OS) (m : memory) : world :=
  mkWorld NULL NULL false false o m [].

(** ** The state-and-fault monad *)

Definition Prog (A : Type) : Type := world -> option (A * world).

Definition ret {A} (a : A) : Prog A := fun w => Some (a, w).

Definition bind {A B} (m : Prog A) (k : A -> Prog B) : Prog B :=
  fun w => match m w with
           | Some (a, w') => k a w'
           | None => None
           end.

Definition fault {A} : Prog A := fun _ => None.

Definition read {A} (f : world -> A) : Prog A := fun w => Some (f w, w).

Definition emit (e : event) : Prog unit :=
  fun w => Some (tt, mkWorld (g_bitnet_lib w) (g_bitlinear_kernel w)
                       (g_bitnet_initialized w) (g_bitnet_available w)
                       (os w) (heap w) (trace w ++ [e])).

Definition set_os (o : OS) : Prog unit :=
  fun w => Some (tt, mkWorld (g_bitnet_lib w) (g_bitlinear_kernel w)
                       (g_bitnet_initialized w) (g_bitnet_available w)
                       o (heap w) (trace w)).

Definition set_heap (m : memory) : Prog unit :=
  fun w => Some (tt, mkWorld (g_bitnet_lib w) (g_bitlinear_kernel w)
                       (g_bitnet_initialized w) (g_bitnet_available w)
                       (os w) m (trace w)).

(** Assignments to the four file-scope variables. *)
Definition set_g_bitnet_lib (h : ptr) : Prog unit :=
  fun w => Some (tt, mkWorld h (g_bitlinear_kernel w)
                       (g_bitnet_initialized w) (g_bitnet_available w)
                       (os w) (heap w) (trace w)).

Definition set_g_bitlinear_kernel (f : ptr) : Prog unit :=
  fun w => Some (tt, mkWorld (g_bitnet_lib w) f
                       (g_bitnet_initialized w) (g_bitnet_available w)
                       (os w) (heap w) (trace w)).

Definition set_g_bitnet_initialized (b : bool) : Prog unit :=
  fun w => Some (tt, mkWorld (g_bitnet_lib w) (g_bitlinear_kernel w)
                       b (g_bitnet_available w)
                       (os w) (heap w) (trace w)).

Definition set_g_bitnet_available (b : bool) : Prog unit :=
  fun w => Some (tt, mkWorld (g_bitnet_lib w) (g_bitlinear_kernel w)
                       (g_bitnet_initialized w) b
                       (os w) (heap w) (trace w)).

Notation "x <- m ;; k" := (bind m (fun x => k))
  (at level 61, m at next level, right associativity).
Notation "m ;;; k" := (bind m (fun _ => k))
  (at level 61, right associativity).

(** ** The macros of the platform block, as effects *)

Definition LOAD_LIBRARY (path : string) : Prog ptr :=
  o <- read os ;;
  let r := sys_load path o in
  set_os (snd r) ;;;
  emit (EvLoadLibrary path (fst r)) ;;;
  ret (fst r).

Definition GET_PROC_ADDRESS (lib : ptr) (symbol : string) : Prog ptr :=
  o <- read os ;;
  let r := sys_symbol lib symbol o in
  set_os (snd r) ;;;
  emit (EvGetProcAddress lib symbol (fst r)) ;;;
  ret (fst r).

Definition CLOSE_LIBRARY (lib : ptr) : Prog unit :=
  o <- read os ;;
  set_os (sys_close lib o) ;;;
  emit (EvCloseLibrary lib).

(** [fprintf(stderr, ...)], with the format already expanded. *)
Definition fprintf_stderr (text : string) : Prog unit :=
  emit (EvStderr text).

(** The indirect call [fn(input0, input1, output0, s, ws, M, N, K,
    stream)]: a fault when [fn] is null, the behaviour of the code at
    [fn] otherwise. *)
Definition call_indirect (fn input0 input1 output0 s ws : ptr)
    (M N K : Z) (stream : ptr) : Prog unit :=
  if is_null fn then fault
  else
    o <- read os ;;
    m <- read heap ;;
    let r := sys_call fn input0 input1 output0 s ws M N K stream o m in
    emit (EvKernelCall fn input0 input1 output0 s ws M N K stream) ;;;
    set_os (fst r) ;;;
    set_heap (snd r).

Definition newline : string := String "010"%char EmptyString.

Definition msg_load_warning : string :=
  "[BitNet] Warning: Could not load " ++ BITNET_LIB_NAME ++
  " - BitNet GPU inference will not be available" ++ newline.

Definition msg_fallback_cpu : string :=
  "[BitNet] BitNet models will fall back to CPU inference" ++ newline.

Definition msg_symbol_error : string :=
  "[BitNet] Error: Found " ++ BITNET_LIB_NAME ++
  " but could not load 'bitlinear_int8xint2' function" ++ newline.

Definition msg_success : string :=
  "[BitNet] Successfully loaded BitNet CUDA kernel from " ++
  BITNET_LIB_NAME ++ newline.

(** ** Initialization and cleanup *)

Definition ggml_bitnet_cuda_init : Prog bool :=
  initialized <- read g_bitnet_initialized ;;
  if initialized then read g_bitnet_available
  else
    set_g_bitnet_initialized true ;;;
    h <- LOAD_LIBRARY BITNET_LIB_NAME ;;
    set_g_bitnet_lib h ;;;
    lib <- read g_bitnet_lib ;;
    (if is_null lib
     then h' <- LOAD_LIBRARY BITNET_LIB_FALLBACK ;; set_g_bitnet_lib h'
     else ret tt) ;;;
    lib <- read g_bitnet_lib ;;
    if is_null lib then
      fprintf_stderr msg_load_warning ;;;
      fprintf_stderr msg_fallback_cpu ;;;
      ret false
    else
      f <- GET_PROC_ADDRESS lib KERNEL_SYMBOL ;;
      set_g_bitlinear_kernel f ;;;
      kernel <- read g_bitlinear_kernel ;;
      if is_null kernel then
        fprintf_stderr msg_symbol_error ;;;
        lib <- read g_bitnet_lib ;;
        CLOSE_LIBRARY lib ;;;
        set_g_bitnet_lib NULL ;;;
        ret false
      else
        set_g_bitnet_available true ;;;
        fprintf_stderr msg_success ;;;
        ret true.

Definition ggml_bitnet_cuda_free : Prog unit :=
  lib <- read g_bitnet_lib ;;
  (if is_null lib then ret tt
   else
     CLOSE_LIBRARY lib ;;;
     set_g_bitnet_lib NULL ;;;
     set_g_bitlinear_kernel NULL) ;;;
  set_g_bitnet_initialized false ;;;
  set_g_bitnet_available false.

Definition ggml_bitnet_cuda_is_available : Prog bool :=
  initialized <- read g_bitnet_initialized ;;
  (if initialized then ret tt
   else _ <- ggml_bitnet_cuda_init ;; ret tt) ;;;
  read g_bitnet_available.

(** ** Kernel invocation *)

Definition ggml_bitnet_cuda_compute
    (input weight output scale weight_scale : ptr) (M N K : Z)
    (stream : ptr) : Prog bool :=
  available <- ggml_bitnet_cuda_is_available ;;
  if negb available then ret false
  else
    kernel <- read g_bitlinear_kernel ;;
    call_indirect kernel input weight output scale weight_scale
                  M N K stream ;;;
    ret true.

(** ** Detection helpers *)

(** The function only tests its argument against null; it never reads
    through it, so it is a function of the address alone. *)
Definition ggml_is_bitnet_model (tensor : ptr) : bool :=
  if is_null tensor then false
  else false.

Definition ggml_should_use_bitnet_cuda (tensor : ptr) : Prog bool :=
  available <- ggml_bitnet_cuda_is_available ;;
  if negb available then ret false
  else if negb (ggml_is_bitnet_model tensor) then ret false
  else ret true.

(** ** The process around the file

    A process interleaves calls of the six exported functions with
    activity of its own and of the machine.  The latter may change the
    operating-system state and the memory in any way (install or remove
    the module file, fill buffers); it cannot name the four [static]
    variables. *)
Inductive api_call : Type :=
| CallInit
| CallFree
| CallIsAvailable
| CallCompute (input weight output scale weight_scale : ptr) (M N K : Z)
              (stream : ptr)
| CallShouldUse (tensor : ptr)
| CallIsBitnetModel (tensor : ptr).

Inductive action : Type :=
| Api (c : api_call)
| Outside (o : OS) (m : memory).

Definition is_free (a : action) : bool :=
  match a with
  | Api CallFree => true
  | _ => false
  end.

Definition exec (c : api_call) : Prog unit :=
  match c with
  | CallInit => _ <- ggml_bitnet_cuda_init ;; ret tt
  | CallFree => ggml_bitnet_cuda_free
  | CallIsAvailable => _ <- ggml_bitnet_cuda_is_available ;; ret tt
  | CallCompute input weight output scale weight_scale M N K stream =>
      _ <- ggml_bitnet_cuda_compute input weight output scale weight_scale
                                    M N K stream ;;
      ret tt
  | CallShouldUse tensor => _ <- ggml_should_use_bitnet_cuda tensor ;; ret tt
  | CallIsBitnetModel tensor => _ <- ret (ggml_is_bitnet_model tensor) ;; ret tt
  end.

Definition step (a : action) : Prog unit :=
  match a with
  | Api c => exec c
  | Outside o m => set_os o ;;; set_heap m
  end.

Fixpoint run (l : list action) : Prog unit :=
  match l with
  | [] => ret tt
  | a :: l' => step a ;;; run l'
  end.

(** The worlds a process can be in between two calls. *)
Inductive reachable : world -> Prop :=
| reach_start (o : OS) (m : memory) : reachable (initial_world o m)
| reach_step (a : action) (w w' : world) :
    reachable w -> step a w = Some (tt, w') -> reachable w'.

(** ** Observations on traces *)

Definition is_probe_start (e : event) : bool :=
  match e with
  | EvLoadLibrary path _ => String.eqb path BITNET_LIB_NAME
  | _ => false
  end.

Definition is_load (e : event) : bool :=
  match e with
  | EvLoadLibrary _ _ => true
  | _ => false
  end.

Definition is_kernel_call (e : event) : bool :=
  match e with
  | EvKernelCall _ _ _ _ _ _ _ _ _ _ => true
  | _ => false
  end.

(** Every run of the probe sequence starts with one load of the plain
    library name, and nothing else loads that name. *)
Definition probe_count (t : list event) : nat :=
  List.length (filter is_probe_start t).

Definition load_count (t : list event) : nat :=
  List.length (filter is_load t).

Definition kernel_calls (t : list event) : list event :=
  filter is_kernel_call t.

(** ** Consistency of the four variables *)

Definition consistent (w : world) : Prop :=
  (g_bitnet_available w = true -> g_bitnet_initialized w = true) /\
  is_null (g_bitnet_lib w) = negb (g_bitnet_available w) /\
  is_null (g_bitlinear_kernel w) = negb (g_bitnet_available w).

(** ** What the loader answers to the probe sequence

    The candidate locations in order: the plain name, then the one
    explicit path.  The second is consulted only when the first fails. *)
Definition load_candidates (o : OS) : ptr * OS :=
  let r := sys_load BITNET_LIB_NAME o in
  if is_null (fst r) then sys_load BITNET_LIB_FALLBACK (snd r) else r.

Definition resolve_symbol (o : OS) : ptr * OS :=
  let r := load_candidates o in
  sys_symbol (fst r) KERNEL_SYMBOL (snd r).

Definition candidate_events (o : OS) : list event :=
  let r := sys_load BITNET_LIB_NAME o in
  if is_null (fst r)
  then [EvLoadLibrary BITNET_LIB_NAME (fst r);
        EvLoadLibrary BITNET_LIB_FALLBACK
                      (fst (sys_load BITNET_LIB_FALLBACK (snd r)))]
  else [EvLoadLibrary BITNET_LIB_NAME (fst r)].

(** The world after a list of actions (the starting world again if the
    run faults). *)
Definition after (l : list action) (w : world) : world :=
  match run l w with
  | Some (_, w') => w'
  | None => w
  end.

Definition no_free (l : list action) : bool :=
  forallb (fun a => negb (is_free a)) l.

(** The binding invariant: a bound function has its module, an
    available kernel has both, and the two pointers are null
    together. *)
Definition binding_invariant (w : world) : Prop :=
  (g_bitlinear_kernel w <> NULL -> g_bitnet_lib w <> NULL) /\
  (g_bitnet_available w = true ->
   g_bitnet_lib w <> NULL /\ g_bitlinear_kernel w <> NULL) /\
  (g_bitnet_lib w = NULL <-> g_bitlinear_kernel w = NULL).

(** The file-scope variables of two worlds agree. *)
Definition same_globals (w w' : world) : Prop :=
  g_bitnet_lib w' = g_bitnet_lib w /\
  g_bitlinear_kernel w' = g_bitlinear_kernel w /\
  g_bitnet_initialized w' = g_bitnet_initialized w /\
  g_bitnet_available w' = g_bitnet_available w.

(** ** Further observations on traces *)

Definition count_events (f : event -> bool) (t : list event) : nat :=
  List.length (filter f t).

Definition is_close (e : event) : bool :=
  match e with
  | EvCloseLibrary _ => true
  | _ => false
  end.

(** A load that gave a module. *)
Definition is_opened (e : event) : bool :=
  match e with
  | EvLoadLibrary _ r => negb (is_null r)
  | _ => false
  end.

(** One if the handle designates a module, zero for the null handle. *)
Definition holds (h : ptr) : nat := if is_null h then 0 else 1.

(** The discipline a client of the dynamic loader has to follow, as a
    monitor over traces.  Its state is the module handle currently open
    and the kernel entry point currently resolved in it (null for none).
    A load is allowed only while no module is open; a lookup only of the
    kernel symbol in the open module; a close only of the open module;
    a kernel call only through the entry point resolved in the module
    that is open at that moment. *)
Definition protocol_step (st : ptr * ptr) (e : event) : option (ptr * ptr) :=
  match e with
  | EvLoadLibrary _ r =>
      if is_null (fst st) then Some (r, NULL) else None
  | EvGetProcAddress lib symbol r =>
      if negb (is_null (fst st)) && N.eqb lib (fst st)
         && String.eqb symbol KERNEL_SYMBOL
      then Some (fst st, r) else None
  | EvCloseLibrary lib =>
      if negb (is_null (fst st)) && N.eqb lib (fst st)
      then Some (NULL, NULL) else None
  | EvStderr _ => Some st
  | EvKernelCall fn _ _ _ _ _ _ _ _ _ =>
      if negb (is_null (snd st)) && N.eqb fn (snd st)
      then Some st else None
  end.

Fixpoint protocol (st : ptr * ptr) (t : list event) : option (ptr * ptr) :=
  match t with
  | [] => Some st
  | e :: t' =>
      match protocol_step st e with
      | Some st' => protocol st' t'
      | None => None
      end
  end.

(** The trace of a world obeys the protocol and the monitor ends in the
    two pointers the world holds. *)
Definition tracked (w : world) : Prop :=
  protocol (NULL, NULL) (trace w) =
  Some (g_bitnet_lib w, g_bitlinear_kernel w).

(** ** The shape of traces

    The loads of one probe run that ends with the handle [h]: the plain
    name alone when it gave the module, otherwise the plain name failing
    and then the explicit path. *)
Definition candidate_loads (first : bool) (h : ptr) : list event :=
  if first then [EvLoadLibrary BITNET_LIB_NAME h]
  else [EvLoadLibrary BITNET_LIB_NAME NULL;
        EvLoadLibrary BITNET_LIB_FALLBACK h].

(** One run of the probe sequence, in its three outcomes: no module at
    either location (two failed loads, the two warning lines); a module
    without the symbol (its loads, the failed lookup, the error line, the
    close of that module); a module with the symbol (its loads, the
    lookup, the success line). *)
Inductive probe_run : list event -> Prop :=
| probe_no_module :
    probe_run (candidate_loads false NULL ++
               [EvStderr msg_load_warning; EvStderr msg_fallback_cpu])
| probe_no_symbol (first : bool) (h : ptr) :
    h <> NULL ->
    probe_run (candidate_loads first h ++
               [EvGetProcAddress h KERNEL_SYMBOL NULL;
                EvStderr msg_symbol_error;
                EvCloseLibrary h])
| probe_bound (first : bool) (h f : ptr) :
    h <> NULL -> f <> NULL ->
    probe_run (candidate_loads first h ++
               [EvGetProcAddress h KERNEL_SYMBOL f;
                EvStderr msg_success]).

(** What one step of the file can add to the trace: a probe run, the
    close made by free, or one kernel call. *)
Inductive block : list event -> Prop :=
| block_probe (b : list event) : probe_run b -> block b
| block_release (h : ptr) : h <> NULL -> block [EvCloseLibrary h]
| block_kernel (f input0 input1 output0 s ws : ptr) (M N K : Z)
               (stream : ptr) :
    f <> NULL ->
    block [EvKernelCall f input0 input1 output0 s ws M N K stream].

(** ** The life cycle

    The joint shapes of the four variables: nothing tried, a probe that
    failed, a bound kernel.  Any other combination has no phase. *)
Inductive phase : Type :=
| Unloaded
| Unavailable
| Ready.

Definition phase_of (w : world) : option phase :=
  match g_bitnet_initialized w, g_bitnet_available w,
        is_null (g_bitnet_lib w), is_null (g_bitlinear_kernel w) with
  | false, false, true, true => Some Unloaded
  | true, false, true, true => Some Unavailable
  | true, true, false, false => Some Ready
  | _, _, _, _ => None
  end.

(** The exported functions that run the lazy initialization: init
    itself and the three that start with the availability check. *)
Definition initializes (c : api_call) : bool :=
  match c with
  | CallInit | CallIsAvailable | CallCompute _ _ _ _ _ _ _ _ _
  | CallShouldUse _ => true
  | CallFree | CallIsBitnetModel _ => false
  end.

(** The phases an action can lead to from a phase. *)
Definition successors (a : action) (p : phase) : list phase :=
  match a with
  | Api CallFree => [Unloaded]
  | Api (CallIsBitnetModel _) => [p]
  | Outside _ _ => [p]
  | Api _ =>
      match p with
      | Unloaded => [Ready; Unavailable]
      | _ => [p]
      end
  end.

(** ** Executing the programs *)

Lemma is_null_true (p : ptr) : is_null p = true <-> p = NULL.
Proof. unfold is_null. apply N.eqb_eq. Qed.

Lemma is_null_false (p : ptr) : is_null p = false <-> p <> NULL.
Proof. unfold is_null. apply N.eqb_neq. Qed.

Ltac unfold_prog :=
  unfold ggml_should_use_bitnet_cuda, ggml_bitnet_cuda_compute,
    ggml_bitnet_cuda_is_available, ggml_bitnet_cuda_free,
    ggml_bitnet_cuda_init, call_indirect, LOAD_LIBRARY, GET_PROC_ADDRESS,
    CLOSE_LIBRARY, fprintf_stderr, bind, ret, read, fault, emit, set_os,
    set_heap, set_g_bitnet_lib, set_g_bitlinear_kernel,
    set_g_bitnet_initialized, set_g_bitnet_available.

(** A second call of init answers from the recorded flag and touches
    nothing. *)
Lemma init_memo (w : world) :
  g_bitnet_initialized w = true ->
  ggml_bitnet_cuda_init w = Some (g_bitnet_available w, w).
Proof.
  intros Hi. unfold_prog. rewrite Hi. reflexivity.
Qed.

Lemma load_candidates_first (o : OS) :
  fst (sys_load BITNET_LIB_NAME o) <> NULL ->
  load_candidates o = sys_load BITNET_LIB_NAME o /\
  candidate_events o =
    [EvLoadLibrary BITNET_LIB_NAME (fst (sys_load BITNET_LIB_NAME o))].
Proof.
  intros H. apply is_null_false in H.
  unfold load_candidates, candidate_events. rewrite H. split; reflexivity.
Qed.

Lemma load_candidates_second (o : OS) :
  fst (sys_load BITNET_LIB_NAME o) = NULL ->
  load_candidates o =
    sys_load BITNET_LIB_FALLBACK (snd (sys_load BITNET_LIB_NAME o)) /\
  candidate_events o =
    [EvLoadLibrary BITNET_LIB_NAME NULL;
     EvLoadLibrary BITNET_LIB_FALLBACK (fst (load_candidates o))].
Proof.
  intros H. unfold load_candidates, candidate_events.
  rewrite H. cbn. split; reflexivity.
Qed.

(** The three ways a fresh probe ends. *)
Lemma init_load_failed (w : world) :
  g_bitnet_initialized w = false ->
  fst (load_candidates (os w)) = NULL ->
  ggml_bitnet_cuda_init w =
    Some (false,
          mkWorld NULL (g_bitlinear_kernel w) true (g_bitnet_available w)
                  (snd (load_candidates (os w))) (heap w)
                  (trace w ++ candidate_events (os w) ++
                   [EvStderr msg_load_warning; EvStderr msg_fallback_cpu])).
Proof.
  intros Hi Hl. unfold_prog. rewrite Hi. cbn.
  unfold load_candidates, candidate_events in *.
  destruct (is_null (fst (sys_load BITNET_LIB_NAME (os w)))) eqn:E1; cbn.
  - rewrite Hl. cbn. rewrite <- !app_assoc. reflexivity.
  - apply is_null_false in E1. contradiction.
Qed.

Lemma init_symbol_missing (w : world) :
  g_bitnet_initialized w = false ->
  fst (load_candidates (os w)) <> NULL ->
  fst (resolve_symbol (os w)) = NULL ->
  ggml_bitnet_cuda_init w =
    Some (false,
          mkWorld NULL NULL true (g_bitnet_available w)
                  (sys_close (fst (load_candidates (os w)))
                             (snd (resolve_symbol (os w))))
                  (heap w)
                  (trace w ++ candidate_events (os w) ++
                   [EvGetProcAddress (fst (load_candidates (os w)))
                                     KERNEL_SYMBOL NULL;
                    EvStderr msg_symbol_error;
                    EvCloseLibrary (fst (load_candidates (os w)))])).
Proof.
  intros Hi Hl Hs. apply is_null_false in Hl.
  unfold_prog. rewrite Hi. cbn.
  unfold resolve_symbol, load_candidates, candidate_events in *.
  destruct (is_null (fst (sys_load BITNET_LIB_NAME (os w)))) eqn:E1; cbn;
    rewrite ?E1, ?Hl; cbn; rewrite Hs; cbn;
    rewrite <- !app_assoc; reflexivity.
Qed.

Lemma init_success (w : world) :
  g_bitnet_initialized w = false ->
  fst (load_candidates (os w)) <> NULL ->
  fst (resolve_symbol (os w)) <> NULL ->
  ggml_bitnet_cuda_init w =
    Some (true,
          mkWorld (fst (load_candidates (os w)))
                  (fst (resolve_symbol (os w))) true true
                  (snd (resolve_symbol (os w))) (heap w)
                  (trace w ++ candidate_events (os w) ++
                   [EvGetProcAddress (fst (load_candidates (os w)))
                                     KERNEL_SYMBOL
                                     (fst (resolve_symbol (os w)));
                    EvStderr msg_success])).
Proof.
  intros Hi Hl Hs. apply is_null_false in Hl. apply is_null_false in Hs.
  unfold_prog. rewrite Hi. cbn.
  unfold resolve_symbol, load_candidates, candidate_events in *.
  destruct (is_null (fst (sys_load BITNET_LIB_NAME (os w)))) eqn:E1; cbn;
    rewrite ?E1, ?Hl; cbn; rewrite Hs; cbn;
    rewrite <- !app_assoc; reflexivity.
Qed.

(** Case analysis on the answers of the loader to a fresh probe. *)
Ltac probe_cases w Hi :=
  let Hl := fresh "Hload" in
  let Hs := fresh "Hsym" in
  destruct (N.eq_dec (fst (load_candidates (os w))) NULL) as [Hl | Hl];
  [ rewrite (init_load_failed w Hi Hl) in *
  | destruct (N.eq_dec (fst (resolve_symbol (os w))) NULL) as [Hs | Hs];
    [ rewrite (init_symbol_missing w Hi Hl Hs) in *
    | rewrite (init_success w Hi Hl Hs) in * ] ].

Lemma init_total (w : world) :
  exists r w', ggml_bitnet_cuda_init w = Some (r, w').
Proof.
  destruct (g_bitnet_initialized w) eqn:Hi.
  - rewrite (init_memo w Hi). eauto.
  - probe_cases w Hi; eauto.
Qed.

Lemma init_sets_initialized (w w' : world) (r : bool) :
  ggml_bitnet_cuda_init w = Some (r, w') ->
  g_bitnet_initialized w' = true.
Proof.
  destruct (g_bitnet_initialized w) eqn:Hi.
  - rewrite (init_memo w Hi). intros H; inversion H; subst. exact Hi.
  - probe_cases w Hi; intros H; inversion H; reflexivity.
Qed.

Lemma free_spec (w : world) :
  ggml_bitnet_cuda_free w =
    Some (tt,
          if is_null (g_bitnet_lib w)
          then mkWorld (g_bitnet_lib w) (g_bitlinear_kernel w) false false
                       (os w) (heap w) (trace w)
          else mkWorld NULL NULL false false
                       (sys_close (g_bitnet_lib w) (os w)) (heap w)
                       (trace w ++ [EvCloseLibrary (g_bitnet_lib w)])).
Proof.
  unfold_prog. destruct (is_null (g_bitnet_lib w)); reflexivity.
Qed.

Lemma is_available_memo (w : world) :
  g_bitnet_initialized w = true ->
  ggml_bitnet_cuda_is_available w = Some (g_bitnet_available w, w).
Proof.
  intros Hi. unfold ggml_bitnet_cuda_is_available, bind, read, ret.
  rewrite Hi. reflexivity.
Qed.

Lemma is_available_fresh (w w' : world) (r : bool) :
  g_bitnet_initialized w = false ->
  ggml_bitnet_cuda_init w = Some (r, w') ->
  ggml_bitnet_cuda_is_available w = Some (g_bitnet_available w', w').
Proof.
  intros Hi Hinit. unfold ggml_bitnet_cuda_is_available, bind, read, ret.
  rewrite Hi, Hinit. reflexivity.
Qed.

Lemma is_available_total (w : world) :
  exists r w', ggml_bitnet_cuda_is_available w = Some (r, w').
Proof.
  destruct (g_bitnet_initialized w) eqn:Hi.
  - rewrite (is_available_memo w Hi). eauto.
  - destruct (init_total w) as (r & w' & Hinit).
    rewrite (is_available_fresh w w' r Hi Hinit). eauto.
Qed.

(** The flag that is_available returns is the one it leaves behind, and
    it leaves the world initialized. *)
Lemma is_available_result (w w' : world) (r : bool) :
  ggml_bitnet_cuda_is_available w = Some (r, w') ->
  r = g_bitnet_available w' /\ g_bitnet_initialized w' = true.
Proof.
  destruct (g_bitnet_initialized w) eqn:Hi.
  - rewrite (is_available_memo w Hi). intros H; inversion H; subst; auto.
  - destruct (init_total w) as (r0 & w0 & Hinit).
    rewrite (is_available_fresh w w0 r0 Hi Hinit).
    intros H; inversion H; subst. split; [reflexivity|].
    eapply init_sets_initialized; eauto.
Qed.

Lemma compute_unavailable (w w' : world)
    (input weight output scale weight_scale : ptr) (M N K : Z)
    (stream : ptr) :
  ggml_bitnet_cuda_is_available w = Some (false, w') ->
  ggml_bitnet_cuda_compute input weight output scale weight_scale
                           M N K stream w = Some (false, w').
Proof.
  intros Ha. unfold ggml_bitnet_cuda_compute, bind. rewrite Ha. reflexivity.
Qed.

Lemma compute_available (w w' : world)
    (input weight output scale weight_scale : ptr) (M N K : Z)
    (stream : ptr) :
  ggml_bitnet_cuda_is_available w = Some (true, w') ->
  g_bitlinear_kernel w' <> NULL ->
  ggml_bitnet_cuda_compute input weight output scale weight_scale
                           M N K stream w =
    let r := sys_call (g_bitlinear_kernel w') input weight output scale
                      weight_scale M N K stream (os w') (heap w') in
    Some (true,
          mkWorld (g_bitnet_lib w') (g_bitlinear_kernel w')
                  (g_bitnet_initialized w') (g_bitnet_available w')
                  (fst r) (snd r)
                  (trace w' ++
                   [EvKernelCall (g_bitlinear_kernel w') input weight output
                                 scale weight_scale M N K stream])).
Proof.
  intros Ha Hk. apply is_null_false in Hk.
  unfold ggml_bitnet_cuda_compute, bind. rewrite Ha. cbn.
  unfold read, call_indirect. rewrite Hk. reflexivity.
Qed.

Lemma compute_null_kernel (w w' : world)
    (input weight output scale weight_scale : ptr) (M N K : Z)
    (stream : ptr) :
  ggml_bitnet_cuda_is_available w = Some (true, w') ->
  g_bitlinear_kernel w' = NULL ->
  ggml_bitnet_cuda_compute input weight output scale weight_scale
                           M N K stream w = None.
Proof.
  intros Ha Hk. apply is_null_true in Hk.
  unfold ggml_bitnet_cuda_compute, bind. rewrite Ha. cbn.
  unfold read, call_indirect. rewrite Hk. reflexivity.
Qed.

Lemma is_bitnet_model_false (tensor : ptr) :
  ggml_is_bitnet_model tensor = false.
Proof.
  unfold ggml_is_bitnet_model. destruct (is_null tensor); reflexivity.
Qed.

Lemma should_use_spec (tensor : ptr) (w w' : world) (a : bool) :
  ggml_bitnet_cuda_is_available w = Some (a, w') ->
  ggml_should_use_bitnet_cuda tensor w =
    Some (a && ggml_is_bitnet_model tensor, w').
Proof.
  intros Ha. unfold ggml_should_use_bitnet_cuda, bind, ret. rewrite Ha.
  destruct a, (ggml_is_bitnet_model tensor); reflexivity.
Qed.

(** ** The consistency invariant *)

Lemma initial_consistent (o : OS) (m : memory) :
  consistent (initial_world o m).
Proof.
  unfold consistent, initial_world. cbn. repeat split; try discriminate.
Qed.

Lemma consistent_uninitialized (w : world) :
  consistent w -> g_bitnet_initialized w = false ->
  g_bitnet_available w = false /\
  g_bitnet_lib w = NULL /\ g_bitlinear_kernel w = NULL.
Proof.
  intros (Hai & Hlib & Hk) Hi.
  destruct (g_bitnet_available w).
  - specialize (Hai eq_refl). congruence.
  - cbn in *. rewrite is_null_true in Hlib, Hk. auto.
Qed.

Lemma init_consistent (w w' : world) (r : bool) :
  consistent w -> ggml_bitnet_cuda_init w = Some (r, w') -> consistent w'.
Proof.
  intros Hc. destruct (g_bitnet_initialized w) eqn:Hi.
  - rewrite (init_memo w Hi). intros H; inversion H; subst; exact Hc.
  - destruct (consistent_uninitialized w Hc Hi) as (Ha & _ & Hk).
    probe_cases w Hi; intros H; inversion H; subst; clear H;
      unfold consistent; cbn; rewrite ?Ha, ?Hk; cbn.
    + repeat split; try discriminate.
    + repeat split; try discriminate.
    + apply is_null_false in Hload, Hsym. rewrite Hload, Hsym. auto.
Qed.

Lemma free_consistent (w w' : world) :
  consistent w -> ggml_bitnet_cuda_free w = Some (tt, w') -> consistent w'.
Proof.
  intros (Hai & Hlib & Hk). rewrite free_spec.
  intros H; inversion H; subst; clear H.
  destruct (is_null (g_bitnet_lib w)) eqn:E; unfold consistent; cbn.
  - destruct (g_bitnet_available w); cbn in *; [discriminate|].
    rewrite ?E, ?Hk. repeat split; try discriminate.
  - repeat split; try discriminate.
Qed.

Lemma is_available_consistent (w w' : world) (r : bool) :
  consistent w -> ggml_bitnet_cuda_is_available w = Some (r, w') ->
  consistent w'.
Proof.
  intros Hc. destruct (g_bitnet_initialized w) eqn:Hi.
  - rewrite (is_available_memo w Hi). intros H; inversion H; subst; auto.
  - destruct (init_total w) as (r0 & w0 & Hinit).
    rewrite (is_available_fresh w w0 r0 Hi Hinit).
    intros H; inversion H; subst. eapply init_consistent; eauto.
Qed.

Lemma available_kernel_bound (w : world) :
  consistent w -> g_bitnet_available w = true ->
  g_bitnet_lib w <> NULL /\ g_bitlinear_kernel w <> NULL.
Proof.
  intros (_ & Hlib & Hk) Ha. rewrite Ha in *. cbn in *.
  rewrite is_null_false in Hlib, Hk. auto.
Qed.

Lemma compute_consistent (w w' : world) (r : bool)
    (input weight output scale weight_scale : ptr) (M N K : Z)
    (stream : ptr) :
  consistent w ->
  ggml_bitnet_cuda_compute input weight output scale weight_scale
                           M N K stream w = Some (r, w') ->
  consistent w'.
Proof.
  intros Hc. destruct (is_available_total w) as (a & w1 & Ha).
  pose proof (is_available_consistent w w1 a Hc Ha) as Hc1.
  destruct a.
  - destruct (is_available_result w w1 true Ha) as (Hav & _).
    destruct (available_kernel_bound w1 Hc1 (eq_sym Hav)) as (_ & Hk).
    rewrite (compute_available w w1 _ _ _ _ _ _ _ _ _ Ha Hk). cbn.
    intros H; inversion H; subst. exact Hc1.
  - rewrite (compute_unavailable w w1 _ _ _ _ _ _ _ _ _ Ha).
    intros H; inversion H; subst. exact Hc1.
Qed.

Lemma should_use_consistent (w w' : world) (r : bool) (tensor : ptr) :
  consistent w -> ggml_should_use_bitnet_cuda tensor w = Some (r, w') ->
  consistent w'.
Proof.
  intros Hc. destruct (is_available_total w) as (a & w1 & Ha).
  rewrite (should_use_spec tensor w w1 a Ha).
  intros H; inversion H; subst. eapply is_available_consistent; eauto.
Qed.

Lemma bind_unit_inv {A} (m : Prog A) (w w' : world) :
  (_ <- m ;; ret tt) w = Some (tt, w') -> exists r, m w = Some (r, w').
Proof.
  unfold bind, ret. destruct (m w) as [[r w1]|]; [|discriminate].
  intros H; inversion H; subst. eauto.
Qed.

Lemma step_consistent (a : action) (w w' : world) :
  consistent w -> step a w = Some (tt, w') -> consistent w'.
Proof.
  intros Hc. destruct a as [c | o m]; cbn.
  - destruct c; cbn; intros H;
      try (apply bind_unit_inv in H; destruct H as (r & H)).
    + eapply init_consistent; eauto.
    + eapply free_consistent; eauto.
    + eapply is_available_consistent; eauto.
    + eapply compute_consistent; eauto.
    + eapply should_use_consistent; eauto.
    + inversion H; subst. exact Hc.
  - unfold bind, set_os, set_heap. intros H; inversion H; subst.
    exact Hc.
Qed.

Lemma reachable_consistent (w : world) : reachable w -> consistent w.
Proof.
  induction 1 as [o m | a w w' _ IH Hstep].
  - apply initial_consistent.
  - eapply step_consistent; eauto.
Qed.

(** ** Counting events *)

Lemma probe_count_app (t1 t2 : list event) :
  probe_count (t1 ++ t2) = probe_count t1 + probe_count t2.
Proof. unfold probe_count. rewrite filter_app, length_app. reflexivity. Qed.

Lemma load_count_app (t1 t2 : list event) :
  load_count (t1 ++ t2) = load_count t1 + load_count t2.
Proof. unfold load_count. rewrite filter_app, length_app. reflexivity. Qed.

Lemma kernel_calls_app (t1 t2 : list event) :
  kernel_calls (t1 ++ t2) = kernel_calls t1 ++ kernel_calls t2.
Proof. unfold kernel_calls. apply filter_app. Qed.

Lemma fallback_is_not_plain_name :
  String.eqb BITNET_LIB_FALLBACK BITNET_LIB_NAME = false.
Proof.
  unfold BITNET_LIB_FALLBACK, BITNET_LIB_NAME.
  destruct win32; reflexivity.
Qed.

Lemma candidate_probe_count (o : OS) :
  probe_count (candidate_events o) = 1.
Proof.
  unfold candidate_events, probe_count.
  destruct (is_null (fst (sys_load BITNET_LIB_NAME o))); cbn;
    rewrite String.eqb_refl, ?fallback_is_not_plain_name; reflexivity.
Qed.

Lemma candidate_load_count (o : OS) :
  1 <= load_count (candidate_events o) <= 2.
Proof.
  unfold candidate_events, load_count.
  destruct (is_null (fst (sys_load BITNET_LIB_NAME o))); cbn; lia.
Qed.

Lemma candidate_no_kernel_call (o : OS) :
  kernel_calls (candidate_events o) = [].
Proof.
  unfold candidate_events.
  destruct (is_null (fst (sys_load BITNET_LIB_NAME o))); reflexivity.
Qed.

(** What a fresh probe appends to the trace: the candidate loads, then
    events that are neither loads nor kernel calls.  Memory is not
    touched. *)
Lemma init_fresh_trace (w w' : world) (r : bool) :
  g_bitnet_initialized w = false ->
  ggml_bitnet_cuda_init w = Some (r, w') ->
  heap w' = heap w /\
  exists tail,
    trace w' = trace w ++ candidate_events (os w) ++ tail /\
    load_count tail = 0 /\ probe_count tail = 0 /\ kernel_calls tail = [].
Proof.
  intros Hi.
  probe_cases w Hi; intros H; inversion H; subst; clear H; cbn;
    (split; [reflexivity | eexists; split; [reflexivity |]]);
    repeat split.
Qed.

Lemma init_probe_count (w w' : world) (r : bool) :
  g_bitnet_initialized w = false ->
  ggml_bitnet_cuda_init w = Some (r, w') ->
  probe_count (trace w') = S (probe_count (trace w)).
Proof.
  intros Hi Hinit.
  destruct (init_fresh_trace w w' r Hi Hinit) as (_ & tail & Ht & _ & Hp & _).
  rewrite Ht, !probe_count_app, candidate_probe_count, Hp. lia.
Qed.

Lemma init_no_kernel_call (w w' : world) (r : bool) :
  ggml_bitnet_cuda_init w = Some (r, w') ->
  kernel_calls (trace w') = kernel_calls (trace w) /\ heap w' = heap w.
Proof.
  destruct (g_bitnet_initialized w) eqn:Hi.
  - rewrite (init_memo w Hi). intros H; inversion H; subst; auto.
  - intros Hinit.
    destruct (init_fresh_trace w w' r Hi Hinit)
      as (Hh & tail & Ht & _ & _ & Hk).
    rewrite Ht, !kernel_calls_app, candidate_no_kernel_call, Hk.
    rewrite app_nil_r. auto.
Qed.

Lemma is_available_no_kernel_call (w w' : world) (r : bool) :
  ggml_bitnet_cuda_is_available w = Some (r, w') ->
  kernel_calls (trace w') = kernel_calls (trace w) /\ heap w' = heap w.
Proof.
  destruct (g_bitnet_initialized w) eqn:Hi.
  - rewrite (is_available_memo w Hi). intros H; inversion H; subst; auto.
  - destruct (init_total w) as (r0 & w0 & Hinit).
    rewrite (is_available_fresh w w0 r0 Hi Hinit).
    intros H; inversion H; subst. eapply init_no_kernel_call; eauto.
Qed.

(** On consistent worlds init and is_available are the same program. *)
Lemma init_returns_flag (w w' : world) (r : bool) :
  consistent w -> ggml_bitnet_cuda_init w = Some (r, w') ->
  r = g_bitnet_available w'.
Proof.
  intros Hc. destruct (g_bitnet_initialized w) eqn:Hi.
  - rewrite (init_memo w Hi). intros H; inversion H; subst; reflexivity.
  - destruct (consistent_uninitialized w Hc Hi) as (Ha & _).
    probe_cases w Hi; intros H; inversion H; subst; cbn; auto.
Qed.

Lemma is_available_is_init (w : world) :
  consistent w ->
  ggml_bitnet_cuda_is_available w = ggml_bitnet_cuda_init w.
Proof.
  intros Hc. destruct (g_bitnet_initialized w) eqn:Hi.
  - rewrite (is_available_memo w Hi), (init_memo w Hi). reflexivity.
  - destruct (init_total w) as (r & w' & Hinit).
    rewrite (is_available_fresh w w' r Hi Hinit), Hinit.
    rewrite <- (init_returns_flag w w' r Hc Hinit). reflexivity.
Qed.

(** ** Runs *)

Lemma compute_total (w : world)
    (input weight output scale weight_scale : ptr) (M N K : Z)
    (stream : ptr) :
  consistent w ->
  exists r w',
    ggml_bitnet_cuda_compute input weight output scale weight_scale
                             M N K stream w = Some (r, w').
Proof.
  intros Hc. destruct (is_available_total w) as (a & w1 & Ha).
  pose proof (is_available_consistent w w1 a Hc Ha) as Hc1.
  destruct a.
  - destruct (is_available_result w w1 true Ha) as (Hav & _).
    destruct (available_kernel_bound w1 Hc1 (eq_sym Hav)) as (_ & Hk).
    rewrite (compute_available w w1 _ _ _ _ _ _ _ _ _ Ha Hk). cbn. eauto.
  - rewrite (compute_unavailable w w1 _ _ _ _ _ _ _ _ _ Ha). eauto.
Qed.

Lemma bind_unit_intro {A} (m : Prog A) (w w' : world) (r : A) :
  m w = Some (r, w') -> (_ <- m ;; ret tt) w = Some (tt, w').
Proof. intros H. unfold bind, ret. rewrite H. reflexivity. Qed.

Lemma step_total (a : action) (w : world) :
  consistent w -> exists w', step a w = Some (tt, w').
Proof.
  intros Hc. destruct a as [c | o m]; unfold step.
  - destruct c; unfold exec.
    + destruct (init_total w) as (r & w' & H).
      exists w'. eapply bind_unit_intro; eauto.
    + rewrite free_spec. eauto.
    + destruct (is_available_total w) as (r & w' & H).
      exists w'. eapply bind_unit_intro; eauto.
    + destruct (compute_total w input weight output scale weight_scale
                              M N K stream Hc) as (r & w' & H).
      exists w'. eapply bind_unit_intro; eauto.
    + destruct (is_available_total w) as (r & w' & H).
      exists w'. eapply bind_unit_intro.
      apply (should_use_spec tensor w w' r H).
    + exists w. reflexivity.
  - unfold bind, set_os, set_heap. eauto.
Qed.

Lemma run_cons (a : action) (l : list action) (w w1 : world) :
  step a w = Some (tt, w1) -> run (a :: l) w = run l w1.
Proof. intros H. cbn. unfold bind. rewrite H. reflexivity. Qed.

Lemma run_total (l : list action) :
  forall w, consistent w -> exists w', run l w = Some (tt, w').
Proof.
  induction l as [| a l IH]; intros w Hc.
  - exists w. reflexivity.
  - destruct (step_total a w Hc) as (w1 & Hs).
    rewrite (run_cons a l w w1 Hs).
    apply IH. eapply step_consistent; eauto.
Qed.

Lemma run_reachable (l : list action) :
  forall w w', reachable w -> run l w = Some (tt, w') -> reachable w'.
Proof.
  induction l as [| a l IH]; intros w w' Hr.
  - cbn. unfold ret. intros H; inversion H; subst; exact Hr.
  - destruct (step_total a w (reachable_consistent w Hr)) as (w1 & Hs).
    rewrite (run_cons a l w w1 Hs). apply IH.
    eapply reach_step; eauto.
Qed.

Lemma reachable_after (l : list action) (w : world) :
  reachable w -> reachable (after l w).
Proof.
  intros Hr. unfold after.
  destruct (run l w) as [[[] w']|] eqn:E; [|exact Hr].
  eapply run_reachable; eauto.
Qed.

Lemma same_globals_refl (w : world) : same_globals w w.
Proof. unfold same_globals. auto. Qed.

Lemma same_globals_trans (w1 w2 w3 : world) :
  same_globals w1 w2 -> same_globals w2 w3 -> same_globals w1 w3.
Proof.
  unfold same_globals. intros (A1 & A2 & A3 & A4) (B1 & B2 & B3 & B4).
  repeat split; congruence.
Qed.

(** Once initialized, every exported function other than free leaves
    the four variables alone and loads nothing. *)
Lemma step_memo (a : action) (w : world) :
  consistent w -> g_bitnet_initialized w = true -> is_free a = false ->
  exists w',
    step a w = Some (tt, w') /\ same_globals w w' /\
    load_count (trace w') = load_count (trace w) /\
    probe_count (trace w') = probe_count (trace w).
Proof.
  intros Hc Hi Hf. destruct a as [c | o m]; unfold step.
  - destruct c; unfold exec; try discriminate.
    + exists w. split; [|split; [apply same_globals_refl | auto]].
      eapply bind_unit_intro. apply (init_memo w Hi).
    + exists w. split; [|split; [apply same_globals_refl | auto]].
      eapply bind_unit_intro. apply (is_available_memo w Hi).
    + pose proof (is_available_memo w Hi) as Ha.
      destruct (g_bitnet_available w) eqn:Hav.
      * destruct (available_kernel_bound w Hc Hav) as (_ & Hk).
        eexists. split.
        { eapply bind_unit_intro.
          apply (compute_available w w _ _ _ _ _ _ _ _ _ Ha Hk). }
        cbn. split; [unfold same_globals; cbn; auto |].
        unfold load_count, probe_count.
        rewrite !filter_app, !length_app. cbn. lia.
      * exists w. split; [|split; [apply same_globals_refl | auto]].
        eapply bind_unit_intro.
        apply (compute_unavailable w w _ _ _ _ _ _ _ _ _ Ha).
    + exists w. split; [|split; [apply same_globals_refl | auto]].
      eapply bind_unit_intro.
      apply (should_use_spec tensor w w _ (is_available_memo w Hi)).
    + exists w. split; [reflexivity |].
      split; [apply same_globals_refl | auto].
  - unfold bind, set_os, set_heap. eexists. split; [reflexivity |].
    cbn. split; [unfold same_globals; cbn; auto | auto].
Qed.

Lemma run_memo (l : list action) :
  forall w,
    consistent w -> g_bitnet_initialized w = true -> no_free l = true ->
    exists w',
      run l w = Some (tt, w') /\ same_globals w w' /\
      load_count (trace w') = load_count (trace w) /\
      probe_count (trace w') = probe_count (trace w).
Proof.
  induction l as [| a l IH]; intros w Hc Hi Hnf.
  - exists w. split; [reflexivity |]. split; [apply same_globals_refl | auto].
  - cbn in Hnf. apply andb_true_iff in Hnf. destruct Hnf as (Hfa & Hnf).
    apply negb_true_iff in Hfa.
    destruct (step_memo a w Hc Hi Hfa) as (w1 & Hs & Hg & Hl & Hp).
    assert (Hi1 : g_bitnet_initialized w1 = true).
    { destruct Hg as (_ & _ & Hg3 & _). congruence. }
    destruct (IH w1 (step_consistent a w w1 Hc Hs) Hi1 Hnf)
      as (w2 & Hr & Hg2 & Hl2 & Hp2).
    exists w2. rewrite (run_cons a l w w1 Hs). split; [exact Hr |].
    split; [eapply same_globals_trans; eauto |]. split; congruence.
Qed.

(** ** The binding invariant from consistency *)

Lemma consistent_binding (w : world) : consistent w -> binding_invariant w.
Proof.
  intros (_ & Hlib & Hk). unfold binding_invariant.
  destruct (g_bitnet_available w); cbn in *.
  - rewrite is_null_false in Hlib, Hk.
    repeat split; auto; intros; contradiction.
  - rewrite is_null_true in Hlib, Hk.
    repeat split; auto; try discriminate; intros; contradiction.
Qed.

Lemma free_idle (w : world) :
  g_bitnet_lib w = NULL -> g_bitnet_initialized w = false ->
  g_bitnet_available w = false ->
  ggml_bitnet_cuda_free w = Some (tt, w).
Proof.
  intros Hl Hi Ha. rewrite free_spec.
  apply is_null_true in Hl. rewrite Hl.
  destruct w; cbn in *; subst; reflexivity.
Qed.

(** An uninitialized world probes again, from the first candidate. *)
Lemma reprobe (w : world) :
  g_bitnet_initialized w = false ->
  exists r w2 tail,
    ggml_bitnet_cuda_init w = Some (r, w2) /\
    trace w2 = trace w ++ candidate_events (os w) ++ tail /\
    probe_count (trace w2) = S (probe_count (trace w)).
Proof.
  intros Hi. destruct (init_total w) as (r & w2 & Hinit).
  destruct (init_fresh_trace w w2 r Hi Hinit) as (_ & tail & Ht & _).
  exists r, w2, tail. split; [exact Hinit |]. split; [exact Ht |].
  apply (init_probe_count w w2 r Hi Hinit).
Qed.

(** ** The properties *)

(** C1. compute never calls through an unbound pointer.  In every
    reachable world the availability check answers; when it answers true
    the kernel pointer it leaves is non-null, and compute, which always
    returns, returns what the check answered; when it answers false,
    compute stops right after the check and the trace gains no kernel
    call. *)
Theorem compute_never_calls_unbound (w : world)
    (input weight output scale weight_scale : ptr) (M N K : Z)
    (stream : ptr) :
  reachable w ->
  exists a w1 w2,
    ggml_bitnet_cuda_is_available w = Some (a, w1) /\
    ggml_bitnet_cuda_compute input weight output scale weight_scale
                             M N K stream w = Some (a, w2) /\
    (a = true -> g_bitlinear_kernel w1 <> NULL) /\
    (a = false ->
     w2 = w1 /\ kernel_calls (trace w2) = kernel_calls (trace w)).
Proof.
  intros Hr. pose proof (reachable_consistent w Hr) as Hc.
  destruct (is_available_total w) as (a & w1 & Ha).
  pose proof (is_available_consistent w w1 a Hc Ha) as Hc1.
  destruct (is_available_result w w1 a Ha) as (Hav & _).
  destruct a.
  - destruct (available_kernel_bound w1 Hc1 (eq_sym Hav)) as (_ & Hk).
    exists true, w1. eexists. split; [exact Ha |]. split.
    + rewrite (compute_available w w1 _ _ _ _ _ _ _ _ _ Ha Hk).
      cbn. reflexivity.
    + split; [intros _; exact Hk | discriminate].
  - exists false, w1, w1. split; [exact Ha |]. split.
    + apply compute_unavailable. exact Ha.
    + split; [discriminate |]. intros _. split; [reflexivity |].
      apply (is_available_no_kernel_call w w1 false Ha).
Qed.

(** C2. A fresh call of init (the flag g_bitnet_initialized is clear)
    returns true exactly when one of the two candidate locations, the
    plain name first and the one explicit path only if that fails, gives
    a module and the symbol bitlinear_int8xint2 resolves in it.  The
    loads appear in the trace in that order and nothing else is loaded.
    Whatever the outcome it is recorded: the world is initialized and
    the availability flag equals the result. *)
Theorem init_true_iff_load_and_symbol (w : world) :
  reachable w -> g_bitnet_initialized w = false ->
  exists r w',
    ggml_bitnet_cuda_init w = Some (r, w') /\
    (r = true <->
     fst (load_candidates (os w)) <> NULL /\
     fst (resolve_symbol (os w)) <> NULL) /\
    g_bitnet_initialized w' = true /\
    g_bitnet_available w' = r /\
    exists tail,
      trace w' = trace w ++ candidate_events (os w) ++ tail /\
      load_count tail = 0.
Proof.
  intros Hr Hi. pose proof (reachable_consistent w Hr) as Hc.
  destruct (init_total w) as (r & w' & Hinit).
  exists r, w'. split; [exact Hinit |].
  pose proof (init_sets_initialized w w' r Hinit) as Hi'.
  pose proof (init_returns_flag w w' r Hc Hinit) as Hflag.
  destruct (init_fresh_trace w w' r Hi Hinit) as (_ & tail & Ht & Hl & _).
  split; [| split; [exact Hi' | split; [auto | eauto]]].
  clear Ht Hl Hflag Hi'. revert Hinit.
  probe_cases w Hi; intros H; inversion H; subst; clear H.
  - split; [discriminate | intros (Hn & _); contradiction].
  - split; [discriminate | intros (_ & Hn); contradiction].
  - split; auto.
Qed.

(** C3. Initialization is memoized.  From any reachable world, the first
    call of init or of is_available (they do the same) returns some r
    and runs the probe at most once; after it, any list of further calls
    and outside activity without free runs to completion, loads nothing
    at all, and leaves a world in which both init and is_available
    return r again without changing anything. *)
Theorem initialization_memoized (w : world) (l : list action) :
  reachable w -> no_free l = true ->
  exists r w1 w2,
    ggml_bitnet_cuda_init w = Some (r, w1) /\
    ggml_bitnet_cuda_is_available w = Some (r, w1) /\
    probe_count (trace w1) <= S (probe_count (trace w)) /\
    run l w1 = Some (tt, w2) /\
    load_count (trace w2) = load_count (trace w1) /\
    probe_count (trace w2) = probe_count (trace w1) /\
    ggml_bitnet_cuda_init w2 = Some (r, w2) /\
    ggml_bitnet_cuda_is_available w2 = Some (r, w2).
Proof.
  intros Hr Hnf. pose proof (reachable_consistent w Hr) as Hc.
  destruct (init_total w) as (r & w1 & Hinit).
  pose proof (init_consistent w w1 r Hc Hinit) as Hc1.
  pose proof (init_sets_initialized w w1 r Hinit) as Hi1.
  pose proof (init_returns_flag w w1 r Hc Hinit) as Hflag.
  destruct (run_memo l w1 Hc1 Hi1 Hnf) as (w2 & Hrun & Hg & Hl & Hp).
  destruct Hg as (_ & _ & Hg3 & Hg4).
  assert (Hi2 : g_bitnet_initialized w2 = true) by congruence.
  exists r, w1, w2. split; [exact Hinit |].
  split; [rewrite (is_available_is_init w Hc); exact Hinit |].
  split.
  { destruct (g_bitnet_initialized w) eqn:Hi.
    - rewrite (init_memo w Hi) in Hinit. inversion Hinit; subst. lia.
    - rewrite (init_probe_count w w1 r Hi Hinit). lia. }
  split; [exact Hrun |]. split; [exact Hl |]. split; [exact Hp |].
  rewrite (init_memo w2 Hi2), (is_available_memo w2 Hi2).
  rewrite Hg4, <- Hflag. auto.
Qed.

(** C4. When no module is present at either candidate path at the
    moment the probe runs (the world is reachable and uninitialized, and
    the loader, in its present state, gives no module for the plain name
    nor then for the explicit path), is_available returns false, and
    compute, for any arguments, returns false in the world the check
    left: memory is the same function as before the call and no kernel
    call was made.  Any further compute from that world returns false
    and changes nothing at all. *)
Theorem absent_module_compute_untouched (w : world)
    (input weight output scale weight_scale : ptr) (M N K : Z)
    (stream : ptr) :
  reachable w -> g_bitnet_initialized w = false ->
  fst (load_candidates (os w)) = NULL ->
  exists w1,
    ggml_bitnet_cuda_is_available w = Some (false, w1) /\
    ggml_bitnet_cuda_compute input weight output scale weight_scale
                             M N K stream w = Some (false, w1) /\
    heap w1 = heap w /\
    kernel_calls (trace w1) = kernel_calls (trace w) /\
    forall (input' weight' output' scale' weight_scale' : ptr)
           (M' N' K' : Z) (stream' : ptr),
      ggml_bitnet_cuda_compute input' weight' output' scale' weight_scale'
                               M' N' K' stream' w1 = Some (false, w1).
Proof.
  intros Hr Hi Hload.
  destruct (consistent_uninitialized w (reachable_consistent w Hr) Hi)
    as (Ha & _).
  pose proof (init_load_failed w Hi Hload) as Hinit.
  pose proof (is_available_fresh w _ false Hi Hinit) as Hav.
  cbn [g_bitnet_available] in Hav. rewrite Ha in Hav.
  eexists. split; [exact Hav |].
  split; [apply compute_unavailable; exact Hav |].
  destruct (is_available_no_kernel_call w _ false Hav) as (Hk & Hh).
  split; [exact Hh |]. split; [exact Hk |].
  intros. apply compute_unavailable.
  rewrite is_available_memo by reflexivity.
  reflexivity.
Qed.

(** C5. Pass-through.  When the availability check answers true in a
    reachable world, compute returns true for any nine arguments, and
    what happens after the check is one call of the bound kernel with
    those nine values in the order given: the event is appended to the
    trace, the operating system and memory are what the kernel makes of
    them, and the four variables are as the check left them. *)
Theorem compute_pass_through (w : world)
    (input weight output scale weight_scale : ptr) (M N K : Z)
    (stream : ptr) :
  reachable w ->
  option_map fst (ggml_bitnet_cuda_is_available w) = Some true ->
  exists w1,
    ggml_bitnet_cuda_is_available w = Some (true, w1) /\
    g_bitlinear_kernel w1 <> NULL /\
    ggml_bitnet_cuda_compute input weight output scale weight_scale
                             M N K stream w =
      Some (true,
            mkWorld (g_bitnet_lib w1) (g_bitlinear_kernel w1)
              (g_bitnet_initialized w1) (g_bitnet_available w1)
              (fst (sys_call (g_bitlinear_kernel w1) input weight output
                             scale weight_scale M N K stream
                             (os w1) (heap w1)))
              (snd (sys_call (g_bitlinear_kernel w1) input weight output
                             scale weight_scale M N K stream
                             (os w1) (heap w1)))
              (trace w1 ++
               [EvKernelCall (g_bitlinear_kernel w1) input weight output
                             scale weight_scale M N K stream])).
Proof.
  intros Hr Hav. pose proof (reachable_consistent w Hr) as Hc.
  destruct (is_available_total w) as (a & w1 & Ha).
  rewrite Ha in Hav. cbn in Hav. inversion Hav; subst a.
  pose proof (is_available_consistent w w1 true Hc Ha) as Hc1.
  destruct (is_available_result w w1 true Ha) as (Hflag & _).
  destruct (available_kernel_bound w1 Hc1 (eq_sym Hflag)) as (_ & Hk).
  exists w1. split; [exact Ha |]. split; [exact Hk |].
  rewrite (compute_available w w1 _ _ _ _ _ _ _ _ _ Ha Hk). reflexivity.
Qed.

(** C6. Symbol-resolution failure.  When a fresh init finds a module at
    a candidate location but the symbol does not resolve in it, init
    returns false; the last events are the failed lookup, the error
    line and the unloading of that very module; the handle and the
    kernel pointer are both null afterwards, and the failure is
    recorded. *)
Theorem symbol_failure_unloads (w : world) :
  reachable w -> g_bitnet_initialized w = false ->
  fst (load_candidates (os w)) <> NULL ->
  fst (resolve_symbol (os w)) = NULL ->
  exists w',
    ggml_bitnet_cuda_init w = Some (false, w') /\
    g_bitnet_lib w' = NULL /\ g_bitlinear_kernel w' = NULL /\
    g_bitnet_initialized w' = true /\ g_bitnet_available w' = false /\
    os w' = sys_close (fst (load_candidates (os w)))
                      (snd (resolve_symbol (os w))) /\
    trace w' =
      trace w ++ candidate_events (os w) ++
      [EvGetProcAddress (fst (load_candidates (os w))) KERNEL_SYMBOL NULL;
       EvStderr msg_symbol_error;
       EvCloseLibrary (fst (load_candidates (os w)))].
Proof.
  intros Hr Hi Hl Hs.
  destruct (consistent_uninitialized w (reachable_consistent w Hr) Hi)
    as (Ha & _).
  eexists. split; [apply (init_symbol_missing w Hi Hl Hs) |].
  cbn. repeat split. exact Ha.
Qed.

(** C7. free.  In every reachable world free returns and leaves the
    handle and the kernel pointer null and both flags clear, without
    touching memory.  A loaded module is closed (one close event for the
    handle held); with nothing loaded nothing happens outside.  A second
    free changes nothing, and the next init runs the probe sequence
    again from its first candidate. *)
Theorem free_resets_state (w : world) :
  reachable w ->
  exists w',
    ggml_bitnet_cuda_free w = Some (tt, w') /\
    g_bitnet_lib w' = NULL /\ g_bitlinear_kernel w' = NULL /\
    g_bitnet_initialized w' = false /\ g_bitnet_available w' = false /\
    heap w' = heap w /\
    (g_bitnet_lib w <> NULL ->
     os w' = sys_close (g_bitnet_lib w) (os w) /\
     trace w' = trace w ++ [EvCloseLibrary (g_bitnet_lib w)]) /\
    (g_bitnet_lib w = NULL -> os w' = os w /\ trace w' = trace w) /\
    ggml_bitnet_cuda_free w' = Some (tt, w') /\
    exists r w2 tail,
      ggml_bitnet_cuda_init w' = Some (r, w2) /\
      trace w2 = trace w' ++ candidate_events (os w') ++ tail /\
      probe_count (trace w2) = S (probe_count (trace w')).
Proof.
  intros Hr.
  destruct (consistent_binding w (reachable_consistent w Hr))
    as (_ & _ & Hboth).
  pose proof (free_spec w) as Hfree.
  destruct (is_null (g_bitnet_lib w)) eqn:E;
    [apply is_null_true in E | apply is_null_false in E];
    match type of Hfree with _ = Some (tt, ?x) => remember x as w' end;
    exists w'; (split; [exact Hfree |]);
    assert (Hlib : g_bitnet_lib w' = NULL) by (subst w'; cbn; auto);
    assert (Hker : g_bitlinear_kernel w' = NULL)
      by (subst w'; cbn; auto; apply Hboth; exact E);
    assert (Hini : g_bitnet_initialized w' = false)
      by (subst w'; reflexivity);
    assert (Hava : g_bitnet_available w' = false)
      by (subst w'; reflexivity);
    (split; [exact Hlib |]); (split; [exact Hker |]);
    (split; [exact Hini |]); (split; [exact Hava |]);
    (split; [subst w'; reflexivity |]);
    (split; [intros Hn; try contradiction; subst w'; cbn; auto |]);
    (split; [intros Hn; try contradiction; subst w'; cbn; auto |]);
    (split; [apply free_idle; assumption |]);
    apply reprobe; exact Hini.
Qed.

(** C8. Eligibility never defaults to true.  The classifier answers
    false for every descriptor; should_use returns the conjunction of
    the availability answer and the classifier's answer, hence false,
    for every descriptor in every world, and always returns. *)
Theorem eligibility_never_true (tensor : ptr) (w : world) :
  ggml_is_bitnet_model tensor = false /\
  exists a w',
    ggml_bitnet_cuda_is_available w = Some (a, w') /\
    ggml_should_use_bitnet_cuda tensor w =
      Some (a && ggml_is_bitnet_model tensor, w') /\
    ggml_should_use_bitnet_cuda tensor w = Some (false, w').
Proof.
  split; [apply is_bitnet_model_false |].
  destruct (is_available_total w) as (a & w' & Ha).
  exists a, w'. split; [exact Ha |].
  pose proof (should_use_spec tensor w w' a Ha) as Hs.
  split; [exact Hs |].
  rewrite Hs, is_bitnet_model_false, andb_false_r. reflexivity.
Qed.

(** C9. The binding invariant holds in every reachable world, and every
    operation (any exported function with any arguments, or outside
    activity) returns from such a world into one where it holds again:
    a non-null kernel pointer has a non-null handle, the availability
    flag implies both, and the two pointers are null together. *)
Theorem binding_invariant_preserved (w : world) (a : action) :
  reachable w ->
  binding_invariant w /\
  exists w', step a w = Some (tt, w') /\ binding_invariant w'.
Proof.
  intros Hr. pose proof (reachable_consistent w Hr) as Hc.
  split; [apply consistent_binding; exact Hc |].
  destruct (step_total a w Hc) as (w' & Hs).
  exists w'. split; [exact Hs |].
  apply consistent_binding. eapply step_consistent; eauto.
Qed.

(** C10. The null descriptor.  The classifier answers false on NULL,
    and should_use on NULL returns false from every world, reachable or
    not. *)
Theorem null_descriptor_not_eligible (w : world) :
  ggml_is_bitnet_model NULL = false /\
  exists w', ggml_should_use_bitnet_cuda NULL w = Some (false, w').
Proof.
  split; [reflexivity |].
  destruct (is_available_total w) as (a & w' & Ha).
  exists w'. rewrite (should_use_spec NULL w w' a Ha).
  cbn. rewrite andb_false_r. reflexivity.
Qed.

(** ** The loader protocol *)

Lemma protocol_app (t1 t2 : list event) :
  forall st,
    protocol st (t1 ++ t2) =
    match protocol st t1 with
    | Some st' => protocol st' t2
    | None => None
    end.
Proof.
  induction t1 as [| e t1 IH]; intros st; [reflexivity |].
  cbn [app protocol]. destruct (protocol_step st e); [apply IH | reflexivity].
Qed.

Lemma tracked_extend (w : world) (d : list event) :
  tracked w ->
  protocol (NULL, NULL) (trace w ++ d) =
  protocol (g_bitnet_lib w, g_bitlinear_kernel w) d.
Proof.
  intros Ht. rewrite protocol_app. unfold tracked in Ht. rewrite Ht.
  reflexivity.
Qed.

(** The candidate loads, run with no module open, leave the monitor with
    the module they found. *)
Lemma protocol_candidates (o : OS) :
  protocol (NULL, NULL) (candidate_events o) =
  Some (fst (load_candidates o), NULL).
Proof.
  unfold candidate_events, load_candidates.
  destruct (is_null (fst (sys_load BITNET_LIB_NAME o))) eqn:E.
  - cbn [protocol protocol_step fst]. change (is_null NULL) with true.
    cbn iota. cbn [fst]. rewrite E. reflexivity.
  - reflexivity.
Qed.

Lemma protocol_lookup_ok (h f : ptr) (t : list event) :
  h <> NULL ->
  protocol (h, NULL) (EvGetProcAddress h KERNEL_SYMBOL f :: t) =
  protocol (h, f) t.
Proof.
  intros Hh. apply is_null_false in Hh.
  cbn [protocol protocol_step fst]. rewrite Hh, N.eqb_refl. reflexivity.
Qed.

Lemma protocol_stderr (st : ptr * ptr) (text : string) (t : list event) :
  protocol st (EvStderr text :: t) = protocol st t.
Proof. reflexivity. Qed.

Lemma protocol_close_ok (h f : ptr) (t : list event) :
  h <> NULL ->
  protocol (h, f) (EvCloseLibrary h :: t) = protocol (NULL, NULL) t.
Proof.
  intros Hh. apply is_null_false in Hh.
  cbn [protocol protocol_step fst]. rewrite Hh, N.eqb_refl. reflexivity.
Qed.

Lemma protocol_call_ok (h f : ptr) (t : list event)
    (input0 input1 output0 s ws : ptr) (M N K : Z) (stream : ptr) :
  f <> NULL ->
  protocol (h, f)
           (EvKernelCall f input0 input1 output0 s ws M N K stream :: t) =
  protocol (h, f) t.
Proof.
  intros Hf. apply is_null_false in Hf.
  cbn [protocol protocol_step snd]. rewrite Hf, N.eqb_refl. reflexivity.
Qed.

Lemma init_tracked (w w' : world) (r : bool) :
  consistent w -> tracked w ->
  ggml_bitnet_cuda_init w = Some (r, w') -> tracked w'.
Proof.
  intros Hc Ht. destruct (g_bitnet_initialized w) eqn:Hi.
  - rewrite (init_memo w Hi). intros H; inversion H; subst; exact Ht.
  - destruct (consistent_uninitialized w Hc Hi) as (_ & Hlib & Hk).
    pose proof (tracked_extend w) as Hext. specialize (fun d => Hext d Ht).
    rewrite Hlib, Hk in Hext.
    probe_cases w Hi; intros H; inversion H; subst; clear H;
      unfold tracked; cbn [trace g_bitnet_lib g_bitlinear_kernel];
      rewrite Hext, protocol_app, protocol_candidates; cbn iota.
    + rewrite Hload, Hk. reflexivity.
    + rewrite protocol_lookup_ok by exact Hload.
      rewrite protocol_stderr.
      apply protocol_close_ok; exact Hload.
    + rewrite protocol_lookup_ok by exact Hload. reflexivity.
Qed.

Lemma free_tracked (w w' : world) :
  tracked w -> ggml_bitnet_cuda_free w = Some (tt, w') -> tracked w'.
Proof.
  intros Ht. rewrite free_spec. intros H; inversion H; subst; clear H.
  destruct (is_null (g_bitnet_lib w)) eqn:E; unfold tracked;
    cbn [trace g_bitnet_lib g_bitlinear_kernel].
  - exact Ht.
  - apply is_null_false in E. rewrite (tracked_extend w _ Ht).
    apply protocol_close_ok; exact E.
Qed.

Lemma is_available_tracked (w w' : world) (r : bool) :
  consistent w -> tracked w ->
  ggml_bitnet_cuda_is_available w = Some (r, w') -> tracked w'.
Proof.
  intros Hc Ht. rewrite (is_available_is_init w Hc).
  apply init_tracked; assumption.
Qed.

Lemma compute_tracked (w w' : world) (r : bool)
    (input weight output scale weight_scale : ptr) (M N K : Z)
    (stream : ptr) :
  consistent w -> tracked w ->
  ggml_bitnet_cuda_compute input weight output scale weight_scale
                           M N K stream w = Some (r, w') ->
  tracked w'.
Proof.
  intros Hc Ht. destruct (is_available_total w) as (a & w1 & Ha).
  pose proof (is_available_consistent w w1 a Hc Ha) as Hc1.
  pose proof (is_available_tracked w w1 a Hc Ht Ha) as Ht1.
  destruct a.
  - destruct (is_available_result w w1 true Ha) as (Hav & _).
    destruct (available_kernel_bound w1 Hc1 (eq_sym Hav)) as (_ & Hk).
    rewrite (compute_available w w1 _ _ _ _ _ _ _ _ _ Ha Hk). cbn zeta.
    intros H; inversion H; subst; clear H.
    unfold tracked; cbn [trace g_bitnet_lib g_bitlinear_kernel].
    rewrite (tracked_extend w1 _ Ht1).
    apply protocol_call_ok; exact Hk.
  - rewrite (compute_unavailable w w1 _ _ _ _ _ _ _ _ _ Ha).
    intros H; inversion H; subst. exact Ht1.
Qed.

Lemma step_tracked (a : action) (w w' : world) :
  consistent w -> tracked w -> step a w = Some (tt, w') -> tracked w'.
Proof.
  intros Hc Ht. destruct a as [c | o m]; unfold step.
  - destruct c; unfold exec; intros H;
      try (apply bind_unit_inv in H; destruct H as (r & H)).
    + eapply init_tracked; eauto.
    + eapply free_tracked; eauto.
    + eapply is_available_tracked; eauto.
    + eapply compute_tracked; eauto.
    + destruct (is_available_total w) as (a & w1 & Ha).
      rewrite (should_use_spec tensor w w1 a Ha) in H.
      inversion H; subst. eapply is_available_tracked; eauto.
    + inversion H; subst. exact Ht.
  - unfold bind, set_os, set_heap. intros H; inversion H; subst.
    exact Ht.
Qed.

Lemma reachable_tracked (w : world) : reachable w -> tracked w.
Proof.
  induction 1 as [o m | a w w' Hr IH Hstep].
  - reflexivity.
  - eapply step_tracked; eauto. apply reachable_consistent; exact Hr.
Qed.

Lemma count_events_app (f : event -> bool) (t1 t2 : list event) :
  count_events f (t1 ++ t2) = count_events f t1 + count_events f t2.
Proof. unfold count_events. rewrite filter_app, length_app. reflexivity. Qed.

Lemma count_events_cons (f : event -> bool) (e : event) (t : list event) :
  count_events f (e :: t) = (if f e then 1 else 0) + count_events f t.
Proof. unfold count_events. cbn. destruct (f e); reflexivity. Qed.

(** Along a trace the monitor accepts, modules opened and modules closed
    differ by the module held at either end. *)
Lemma protocol_balance (t : list event) :
  forall st st',
    protocol st t = Some st' ->
    count_events is_opened t + holds (fst st) =
    count_events is_close t + holds (fst st').
Proof.
  induction t as [| e t IH]; intros st st'.
  - cbn. intros H; inversion H; subst. reflexivity.
  - cbn [protocol]. destruct (protocol_step st e) as [st1 |] eqn:E;
      [| discriminate].
    intros H. specialize (IH st1 st' H).
    rewrite !count_events_cons. destruct st as [h f]. cbn [fst].
    destruct e; cbn [protocol_step fst snd] in E; cbn [is_opened is_close].
    + destruct (is_null h) eqn:Eh; [| discriminate].
      inversion E; subst. cbn [fst] in IH. unfold holds in *.
      rewrite Eh. destruct (is_null result); cbn [negb]; lia.
    + destruct (negb (is_null h) && N.eqb lib h
                && String.eqb symbol KERNEL_SYMBOL); [| discriminate].
      inversion E; subst. cbn [fst] in IH. lia.
    + destruct (is_null h) eqn:Eh; cbn [negb andb] in E; [discriminate |].
      destruct (N.eqb lib h); [| discriminate].
      inversion E; subst. cbn [fst] in IH. unfold holds in *.
      rewrite Eh. change (is_null NULL) with true in IH. cbn iota in IH. lia.
    + inversion E; subst. cbn [fst] in IH. lia.
    + destruct (negb (is_null f) && N.eqb fn f); [| discriminate].
      inversion E; subst. cbn [fst] in IH. lia.
Qed.

(** X1. The loader protocol.  The trace of every reachable world is
    accepted by the protocol monitor started with nothing open, and the
    monitor ends holding exactly the module handle and kernel pointer
    stored in the two variables.  So the file never loads while it holds
    a module, looks the symbol up only in the module it holds, closes
    only the module it holds, and calls the kernel only through the entry
    point resolved in the module that is still open. *)
Theorem loader_protocol_respected (w : world) :
  reachable w ->
  protocol (NULL, NULL) (trace w) =
  Some (g_bitnet_lib w, g_bitlinear_kernel w).
Proof.
  induction 1 as [o m | a w w' Hr IH Hstep].
  - reflexivity.
  - apply (step_tracked a w w' (reachable_consistent w Hr) IH Hstep).
Qed.

(** X2. Handles balance.  In every reachable world the number of loads
    that gave a module equals the number of closes, plus one when a
    module is held: no handle is leaked and none is closed twice. *)
Theorem loaded_modules_balance (w : world) :
  reachable w ->
  count_events is_opened (trace w) =
  count_events is_close (trace w) + holds (g_bitnet_lib w).
Proof.
  intros Hr.
  pose proof (protocol_balance _ _ _ (reachable_tracked w Hr)) as H.
  cbn [fst] in H. unfold holds in H at 1.
  change (is_null NULL) with true in H. cbn iota in H. lia.
Qed.

(** ** Memory and the kernel *)

(** X3. Memory is written only by the kernel.  From a reachable world
    every exported function returns, and either it made no kernel call
    and left memory as it was, or it is a call of compute whose
    availability check answered true: then it made exactly one kernel
    call, through the non-null pointer it leaves bound, with its own nine
    arguments, and the memory and operating-system state it leaves are
    exactly what that call of the kernel returned when run on the memory
    as it was before compute was called. *)
Theorem memory_written_only_by_kernel (c : api_call) (w : world) :
  reachable w ->
  exists w',
    exec c w = Some (tt, w') /\
    ((heap w' = heap w /\
      kernel_calls (trace w') = kernel_calls (trace w)) \/
     (exists input weight output scale weight_scale M N K stream w1,
        c = CallCompute input weight output scale weight_scale M N K stream /\
        ggml_bitnet_cuda_is_available w = Some (true, w1) /\
        g_bitlinear_kernel w' <> NULL /\
        kernel_calls (trace w') =
        kernel_calls (trace w) ++
        [EvKernelCall (g_bitlinear_kernel w') input weight output scale
                      weight_scale M N K stream] /\
        heap w' =
        snd (sys_call (g_bitlinear_kernel w') input weight output scale
                      weight_scale M N K stream (os w1) (heap w)) /\
        os w' =
        fst (sys_call (g_bitlinear_kernel w') input weight output scale
                      weight_scale M N K stream (os w1) (heap w)))).
Proof.
  intros Hr. pose proof (reachable_consistent w Hr) as Hc.
  destruct c; unfold exec.
  - destruct (init_total w) as (r & w' & H). exists w'.
    split; [eapply bind_unit_intro; exact H |]. left.
    destruct (init_no_kernel_call w w' r H). auto.
  - rewrite free_spec. eexists. split; [reflexivity |]. left.
    destruct (is_null (g_bitnet_lib w)); cbn [heap trace]; split; auto.
    rewrite kernel_calls_app. cbn. apply app_nil_r.
  - destruct (is_available_total w) as (r & w' & H). exists w'.
    split; [eapply bind_unit_intro; exact H |]. left.
    destruct (is_available_no_kernel_call w w' r H). auto.
  - destruct (is_available_total w) as (a & w1 & Ha).
    destruct (is_available_no_kernel_call w w1 a Ha) as (Hkc & Hh).
    destruct a.
    + pose proof (is_available_consistent w w1 true Hc Ha) as Hc1.
      destruct (is_available_result w w1 true Ha) as (Hav & _).
      destruct (available_kernel_bound w1 Hc1 (eq_sym Hav)) as (_ & Hk).
      eexists. split.
      { eapply bind_unit_intro.
        apply (compute_available w w1 _ _ _ _ _ _ _ _ _ Ha Hk). }
      right.
      exists input, weight, output, scale, weight_scale, M, N, K, stream, w1.
      split; [reflexivity |]. split; [exact Ha |].
      cbn [g_bitlinear_kernel trace heap os].
      split; [exact Hk |].
      split; [rewrite kernel_calls_app, Hkc; reflexivity |].
      rewrite Hh. split; reflexivity.
    + exists w1. split.
      { eapply bind_unit_intro.
        apply (compute_unavailable w w1 _ _ _ _ _ _ _ _ _ Ha). }
      left. auto.
  - destruct (is_available_total w) as (a & w' & Ha). exists w'.
    split; [eapply bind_unit_intro; apply (should_use_spec tensor w w' a Ha) |].
    left. destruct (is_available_no_kernel_call w w' a Ha). auto.
  - exists w. split; [reflexivity |]. left. auto.
Qed.

(** ** Lazy initialization *)

Lemma check_after_init (w w1 : world) (r : bool) :
  consistent w -> ggml_bitnet_cuda_init w = Some (r, w1) ->
  ggml_bitnet_cuda_is_available w = Some (r, w1) /\
  ggml_bitnet_cuda_is_available w1 = Some (r, w1).
Proof.
  intros Hc Hinit. split.
  - rewrite (is_available_is_init w Hc). exact Hinit.
  - rewrite (is_available_memo w1 (init_sets_initialized w w1 r Hinit)).
    rewrite <- (init_returns_flag w w1 r Hc Hinit). reflexivity.
Qed.

Lemma compute_same_check (w w1 : world) (a : bool)
    (input weight output scale weight_scale : ptr) (M N K : Z)
    (stream : ptr) :
  ggml_bitnet_cuda_is_available w = Some (a, w1) ->
  ggml_bitnet_cuda_is_available w1 = Some (a, w1) ->
  ggml_bitnet_cuda_compute input weight output scale weight_scale
                           M N K stream w =
  ggml_bitnet_cuda_compute input weight output scale weight_scale
                           M N K stream w1.
Proof.
  intros H H1. unfold ggml_bitnet_cuda_compute, bind.
  rewrite H, H1. reflexivity.
Qed.

(** X4. Explicit initialization is optional.  In a reachable world,
    calling init, or is_available, before compute, and calling init
    before should_use, gives the same result and the same final world
    (faults included) as the later call alone. *)
Theorem explicit_init_redundant (w : world)
    (input weight output scale weight_scale tensor : ptr) (M N K : Z)
    (stream : ptr) :
  reachable w ->
  (_ <- ggml_bitnet_cuda_init ;;
   ggml_bitnet_cuda_compute input weight output scale weight_scale
                            M N K stream) w =
  ggml_bitnet_cuda_compute input weight output scale weight_scale
                           M N K stream w /\
  (_ <- ggml_bitnet_cuda_is_available ;;
   ggml_bitnet_cuda_compute input weight output scale weight_scale
                            M N K stream) w =
  ggml_bitnet_cuda_compute input weight output scale weight_scale
                           M N K stream w /\
  (_ <- ggml_bitnet_cuda_init ;; ggml_should_use_bitnet_cuda tensor) w =
  ggml_should_use_bitnet_cuda tensor w.
Proof.
  intros Hr. pose proof (reachable_consistent w Hr) as Hc.
  destruct (init_total w) as (r & w1 & Hinit).
  destruct (check_after_init w w1 r Hc Hinit) as (Ha & Ha1).
  pose proof (compute_same_check w w1 r input weight output scale
                weight_scale M N K stream Ha Ha1) as Hcomp.
  split; [| split].
  - unfold bind at 1. rewrite Hinit. symmetry. exact Hcomp.
  - unfold bind at 1. rewrite Ha. symmetry. exact Hcomp.
  - unfold bind at 1. rewrite Hinit.
    rewrite (should_use_spec tensor w w1 r Ha).
    rewrite (should_use_spec tensor w1 w1 r Ha1). reflexivity.
Qed.

(** ** The shape of traces *)

Lemma candidate_events_loads (o : OS) :
  candidate_events o =
  candidate_loads (negb (is_null (fst (sys_load BITNET_LIB_NAME o))))
                  (fst (load_candidates o)).
Proof.
  unfold candidate_events, candidate_loads, load_candidates.
  destruct (is_null (fst (sys_load BITNET_LIB_NAME o))) eqn:E; cbn [negb].
  - apply is_null_true in E. rewrite E. reflexivity.
  - reflexivity.
Qed.

Lemma candidate_events_none (o : OS) :
  fst (load_candidates o) = NULL ->
  candidate_events o = candidate_loads false NULL.
Proof.
  intros H. rewrite candidate_events_loads, H.
  destruct (is_null (fst (sys_load BITNET_LIB_NAME o))) eqn:E;
    [reflexivity |].
  exfalso. unfold load_candidates in H. rewrite E in H.
  apply is_null_false in E. exact (E H).
Qed.

(** What init appends to the trace: nothing, or one probe run. *)
Lemma init_blocks (w w' : world) (r : bool) :
  ggml_bitnet_cuda_init w = Some (r, w') ->
  trace w' = trace w \/
  exists b, probe_run b /\ trace w' = trace w ++ b.
Proof.
  destruct (g_bitnet_initialized w) eqn:Hi.
  - rewrite (init_memo w Hi). intros H; inversion H; subst. auto.
  - probe_cases w Hi; intros H; inversion H; subst; clear H; cbn [trace];
      right; (eexists; split; [| reflexivity]).
    + rewrite (candidate_events_none (os w) Hload). apply probe_no_module.
    + rewrite candidate_events_loads. apply probe_no_symbol. exact Hload.
    + rewrite candidate_events_loads. apply probe_bound; assumption.
Qed.

Lemma is_available_blocks (w w' : world) (r : bool) :
  ggml_bitnet_cuda_is_available w = Some (r, w') ->
  trace w' = trace w \/
  exists b, probe_run b /\ trace w' = trace w ++ b.
Proof.
  destruct (g_bitnet_initialized w) eqn:Hi.
  - rewrite (is_available_memo w Hi). intros H; inversion H; subst. auto.
  - destruct (init_total w) as (r0 & w0 & Hinit).
    rewrite (is_available_fresh w w0 r0 Hi Hinit).
    intros H; inversion H; subst. eapply init_blocks; eauto.
Qed.

Lemma blocks_of_step (t t' : list event) :
  t' = t \/ (exists b, probe_run b /\ t' = t ++ b) ->
  exists bs, Forall block bs /\ t' = t ++ List.concat bs.
Proof.
  intros [-> | (b & Hb & ->)].
  - exists []. split; [constructor |]. cbn. symmetry. apply app_nil_r.
  - exists [b]. split.
    { constructor; [apply block_probe; exact Hb | constructor]. }
    cbn. rewrite app_nil_r. reflexivity.
Qed.

Lemma step_blocks (a : action) (w w' : world) :
  consistent w -> step a w = Some (tt, w') ->
  exists bs, Forall block bs /\ trace w' = trace w ++ List.concat bs.
Proof.
  intros Hc. destruct a as [c | o m]; unfold step.
  - destruct c; unfold exec; intros H;
      try (apply bind_unit_inv in H; destruct H as (r & H)).
    + apply blocks_of_step. eapply init_blocks; eauto.
    + rewrite free_spec in H. inversion H; subst; clear H.
      destruct (is_null (g_bitnet_lib w)) eqn:E; cbn [trace].
      * exists []. split; [constructor |]. cbn. symmetry. apply app_nil_r.
      * apply is_null_false in E.
        exists [[EvCloseLibrary (g_bitnet_lib w)]].
        split; [| reflexivity].
        constructor; [apply block_release; exact E | constructor].
    + apply blocks_of_step. eapply is_available_blocks; eauto.
    + destruct (is_available_total w) as (a & w1 & Ha).
      destruct (blocks_of_step _ _ (is_available_blocks w w1 a Ha))
        as (bs & Hbs & Ht).
      destruct a.
      * pose proof (is_available_consistent w w1 true Hc Ha) as Hc1.
        destruct (is_available_result w w1 true Ha) as (Hav & _).
        destruct (available_kernel_bound w1 Hc1 (eq_sym Hav)) as (_ & Hk).
        rewrite (compute_available w w1 _ _ _ _ _ _ _ _ _ Ha Hk) in H.
        cbn zeta in H. inversion H; subst; clear H. cbn [trace].
        exists (bs ++ [[EvKernelCall (g_bitlinear_kernel w1) input weight
                                     output scale weight_scale M N K
                                     stream]]).
        split.
        { apply Forall_app. split; [exact Hbs |].
          constructor; [apply block_kernel; exact Hk | constructor]. }
        rewrite Ht, concat_app, <- app_assoc. reflexivity.
      * rewrite (compute_unavailable w w1 _ _ _ _ _ _ _ _ _ Ha) in H.
        inversion H; subst. eauto.
    + destruct (is_available_total w) as (a & w1 & Ha).
      rewrite (should_use_spec tensor w w1 a Ha) in H.
      inversion H; subst.
      apply blocks_of_step. eapply is_available_blocks; eauto.
    + inversion H; subst. exists []. split; [constructor |].
      cbn. symmetry. apply app_nil_r.
  - unfold bind, set_os, set_heap. intros H; inversion H; subst.
    cbn [trace]. exists []. split; [constructor |].
    cbn. symmetry. apply app_nil_r.
Qed.

(** X5. The shape of the trace.  The trace of every reachable world is a
    sequence of blocks, each of them a whole probe run, the close of a
    held module, or one kernel call through a non-null pointer.  A probe
    run is exactly one of: the plain name and the explicit path both
    failing, then the two warning lines; the loads that found a module
    (the plain name, or the plain name failing and the explicit path),
    the failed lookup, the error line and the close of that module; the
    same loads, the lookup and the success line.  So every load, lookup
    and diagnostic line belongs to a probe run, which has one or two
    loads, one or two lines and at most one lookup. *)
Theorem trace_is_sequence_of_blocks (w : world) :
  reachable w ->
  exists bs, Forall block bs /\ trace w = List.concat bs.
Proof.
  induction 1 as [o m | a w w' Hr (bs & Hbs & Ht) Hstep].
  - exists []. split; [constructor | reflexivity].
  - destruct (step_blocks a w w' (reachable_consistent w Hr) Hstep)
      as (bs' & Hbs' & Ht').
    exists (bs ++ bs'). split; [apply Forall_app; auto |].
    rewrite Ht', Ht, concat_app. reflexivity.
Qed.

(** ** Retrying after a reset *)

Lemma fresh_init_decides (w w' : world) (r : bool) :
  g_bitnet_initialized w = false ->
  ggml_bitnet_cuda_init w = Some (r, w') ->
  (r = true <->
   fst (load_candidates (os w)) <> NULL /\
   fst (resolve_symbol (os w)) <> NULL).
Proof.
  intros Hi.
  probe_cases w Hi; intros H; inversion H; subst; clear H.
  - split; [discriminate | intros (Hn & _); contradiction].
  - split; [discriminate | intros (_ & Hn); contradiction].
  - split; auto.
Qed.

(** X6. Reset and retry.  From any reachable world, whatever was
    recorded before, free followed by init decides afresh: the two calls
    return, init answers true exactly when the loader, in the state the
    close left it in, gives a module at a candidate location and resolves
    the symbol, and the availability flag is that answer. *)
Theorem free_then_init_decides_afresh (w : world) :
  reachable w ->
  exists w1 r w2,
    ggml_bitnet_cuda_free w = Some (tt, w1) /\
    os w1 = (if is_null (g_bitnet_lib w) then os w
             else sys_close (g_bitnet_lib w) (os w)) /\
    ggml_bitnet_cuda_init w1 = Some (r, w2) /\
    (r = true <->
     fst (load_candidates (os w1)) <> NULL /\
     fst (resolve_symbol (os w1)) <> NULL) /\
    g_bitnet_available w2 = r.
Proof.
  intros Hr. pose proof (reachable_consistent w Hr) as Hc.
  pose proof (free_spec w) as Hfree.
  match type of Hfree with _ = Some (tt, ?x) => remember x as w1 end.
  assert (Hc1 : consistent w1) by (eapply free_consistent; eauto).
  assert (Hi1 : g_bitnet_initialized w1 = false)
    by (subst w1; destruct (is_null (g_bitnet_lib w)); reflexivity).
  destruct (init_total w1) as (r & w2 & Hinit).
  exists w1, r, w2. split; [exact Hfree |].
  split; [subst w1; destruct (is_null (g_bitnet_lib w)); reflexivity |].
  split; [exact Hinit |].
  split; [apply (fresh_init_decides w1 w2 r Hi1 Hinit) |].
  symmetry. apply (init_returns_flag w1 w2 r Hc1 Hinit).
Qed.

(** ** The life cycle as a state machine *)

Lemma consistent_phase (w : world) :
  consistent w -> exists p, phase_of w = Some p.
Proof.
  intros (Hai & Hlib & Hk). unfold phase_of. rewrite Hlib, Hk.
  destruct (g_bitnet_available w); cbn.
  - rewrite (Hai eq_refl). eauto.
  - destruct (g_bitnet_initialized w); eauto.
Qed.

Lemma same_globals_phase (w w' : world) :
  same_globals w w' -> phase_of w' = phase_of w.
Proof.
  intros (H1 & H2 & H3 & H4). unfold phase_of.
  rewrite H1, H2, H3, H4. reflexivity.
Qed.

Lemma phase_initialized (w : world) (p : phase) :
  phase_of w = Some p ->
  g_bitnet_initialized w = match p with Unloaded => false | _ => true end.
Proof.
  unfold phase_of.
  destruct (g_bitnet_initialized w), (g_bitnet_available w),
    (is_null (g_bitnet_lib w)), (is_null (g_bitlinear_kernel w));
    intros H; inversion H; reflexivity.
Qed.

(** init, is_available, compute and should_use leave the world
    initialized. *)
Lemma exec_sets_initialized (c : api_call) (w w' : world) :
  consistent w -> initializes c = true ->
  exec c w = Some (tt, w') -> g_bitnet_initialized w' = true.
Proof.
  intros Hc Hf. destruct c; unfold exec; try discriminate; intros H;
    apply bind_unit_inv in H; destruct H as (r & H).
  - eapply init_sets_initialized; eauto.
  - eapply is_available_result; eauto.
  - destruct (is_available_total w) as (a & w1 & Ha).
    destruct (is_available_result w w1 a Ha) as (Hav & Hi1).
    destruct a.
    + pose proof (is_available_consistent w w1 true Hc Ha) as Hc1.
      destruct (available_kernel_bound w1 Hc1 (eq_sym Hav)) as (_ & Hk).
      rewrite (compute_available w w1 _ _ _ _ _ _ _ _ _ Ha Hk) in H.
      cbn zeta in H. inversion H; subst. exact Hi1.
    + rewrite (compute_unavailable w w1 _ _ _ _ _ _ _ _ _ Ha) in H.
      inversion H; subst. exact Hi1.
  - destruct (is_available_total w) as (a & w1 & Ha).
    rewrite (should_use_spec tensor w w1 a Ha) in H.
    inversion H; subst. eapply is_available_result; eauto.
Qed.

(** X7. The life cycle is a three-state machine.  Every reachable world
    is in one of the phases Unloaded, Unavailable, Ready, and every
    action returns into a phase the machine allows: free leads to
    Unloaded from anywhere; init, is_available, compute and should_use
    lead from Unloaded to Ready or Unavailable and stay where they are
    from Ready or Unavailable; is_bitnet_model and outside activity
    change no phase. *)
Theorem life_cycle_state_machine (w : world) (a : action) :
  reachable w ->
  exists p w' p',
    phase_of w = Some p /\
    step a w = Some (tt, w') /\
    phase_of w' = Some p' /\
    In p' (successors a p).
Proof.
  intros Hr. pose proof (reachable_consistent w Hr) as Hc.
  destruct (consistent_phase w Hc) as (p & Hp).
  destruct (step_total a w Hc) as (w' & Hs).
  destruct (consistent_phase w' (step_consistent a w w' Hc Hs)) as (p' & Hp').
  exists p, w', p'. do 3 (split; [assumption |]).
  pose proof (phase_initialized w p Hp) as Hi.
  pose proof (phase_initialized w' p' Hp') as Hi'.
  assert (Hstay : same_globals w w' -> In p' [p]).
  { intros Hg. rewrite (same_globals_phase w w' Hg), Hp in Hp'.
    inversion Hp'. left; reflexivity. }
  destruct a as [c | o m].
  - destruct (initializes c) eqn:Hini.
    + assert (Hf : is_free (Api c) = false)
        by (destruct c; try discriminate; reflexivity).
      assert (Hsucc : successors (Api c) p =
                      match p with
                      | Unloaded => [Ready; Unavailable]
                      | _ => [p]
                      end)
        by (destruct c; try discriminate; reflexivity).
      rewrite Hsucc. destruct p.
      * pose proof (exec_sets_initialized c w w' Hc Hini Hs) as Hi1.
        rewrite Hi1 in Hi'. destruct p'; try discriminate; cbn; auto.
      * apply Hstay.
        destruct (step_memo (Api c) w Hc Hi Hf) as (w2 & Hs2 & Hg & _).
        rewrite Hs in Hs2. inversion Hs2; subst. exact Hg.
      * apply Hstay.
        destruct (step_memo (Api c) w Hc Hi Hf) as (w2 & Hs2 & Hg & _).
        rewrite Hs in Hs2. inversion Hs2; subst. exact Hg.
    + destruct c; try discriminate; cbn [successors].
      * unfold step, exec in Hs. rewrite free_spec in Hs.
        inversion Hs; subst; clear Hs.
        destruct (is_null (g_bitnet_lib w));
          cbn [g_bitnet_initialized] in Hi';
          destruct p'; try discriminate; left; reflexivity.
      * apply Hstay. unfold step, exec, bind, ret in Hs.
        inversion Hs; subst. apply same_globals_refl.
  - cbn [successors]. apply Hstay.
    unfold step, bind, set_os, set_heap in Hs.
    inversion Hs; subst. unfold same_globals. cbn. auto.
Qed.

End BitNetCuda.

(** ** Runs of the test double *)

(** A successful first probe: the plain name fails, the explicit path
    loads, the symbol resolves. *)
Example init_trace_complete :
  option_map (fun x => (fst x, trace (snd x)))
             (ggml_bitnet_cuda_init (initial_world os_complete zero_memory)) =
  Some (true,
        [EvLoadLibrary "libbitnet.so" NULL;
         EvLoadLibrary "./libs/linux/bitnet-kernel/libbitnet.so" stub_handle;
         EvGetProcAddress stub_handle "bitlinear_int8xint2" stub_entry;
         EvStderr msg_success]).
Proof. reflexivity. Qed.

(** With M = 2, N = 4, K = 8 the stub kernel fills the sixteen bytes of
    the output buffer at address 48 and nothing around it. *)
Example compute_fills_output :
  option_map (fun x => (fst x, map (heap (snd x)) [47%N; 48%N; 63%N; 64%N]))
             (ggml_bitnet_cuda_compute 16%N 32%N 48%N 64%N 80%N 2%Z 4%Z 8%Z
                96%N (initial_world os_complete zero_memory)) =
  Some (true, [x00; x2a; x2a; x00]).
Proof. reflexivity. Qed.

(** The first availability query finds no module; a module installed
    afterwards is not looked for: two load attempts in all. *)
Example late_install_not_probed :
  let w := after [Api CallIsAvailable; Outside os_complete zero_memory;
                  Api CallIsAvailable; Api CallInit]
                 (initial_world os_absent zero_memory) in
  (g_bitnet_available w, load_count (trace w), probe_count (trace w)) =
  (false, 2, 1).
Proof. reflexivity. Qed.

(** After free the probe runs again and finds the module. *)
Example free_then_init_probes_again :
  let w := after [Api CallIsAvailable; Outside os_complete zero_memory;
                  Api CallFree; Api CallInit]
                 (initial_world os_absent zero_memory) in
  (g_bitnet_available w, probe_count (trace w)) = (true, 2).
Proof. reflexivity. Qed.

(** ** The properties on the test double *)

(** C1 on a machine with a complete module, from process start. *)
Lemma compute_never_calls_unbound_witness :
  let w := initial_world os_complete zero_memory in
  reachable w /\
  exists a w1 w2,
    ggml_bitnet_cuda_is_available w = Some (a, w1) /\
    ggml_bitnet_cuda_compute 16%N 32%N 48%N 64%N 80%N 2%Z 4%Z 8%Z 96%N w =
      Some (a, w2) /\
    (a = true -> g_bitlinear_kernel w1 <> NULL) /\
    (a = false -> w2 = w1 /\ kernel_calls (trace w2) = kernel_calls (trace w)).
Proof.
  split; [apply reach_start |].
  apply compute_never_calls_unbound. apply reach_start.
Defined.

(** C2 on a machine whose module sits in the fallback directory. *)
Lemma init_true_iff_load_and_symbol_witness :
  let w := initial_world os_complete zero_memory in
  reachable w /\ g_bitnet_initialized w = false /\
  exists r w',
    ggml_bitnet_cuda_init w = Some (r, w') /\
    (r = true <->
     fst (load_candidates (os w)) <> NULL /\
     fst (resolve_symbol (os w)) <> NULL) /\
    g_bitnet_initialized w' = true /\
    g_bitnet_available w' = r /\
    exists tail,
      trace w' = trace w ++ candidate_events (os w) ++ tail /\
      load_count tail = 0.
Proof.
  split; [apply reach_start |]. split; [reflexivity |].
  apply init_true_iff_load_and_symbol; [apply reach_start | reflexivity].
Defined.

(** C3 on a machine where the module is installed only after the first
    call: the later calls still answer as the first did. *)
Lemma initialization_memoized_witness :
  let w := initial_world os_absent zero_memory in
  let l := [Api CallInit; Outside os_complete zero_memory;
            Api CallIsAvailable;
            Api (CallCompute 16%N 32%N 48%N 64%N 80%N 2%Z 4%Z 8%Z 96%N);
            Api (CallShouldUse 112%N); Api CallInit] in
  reachable w /\ no_free l = true /\
  exists r w1 w2,
    ggml_bitnet_cuda_init w = Some (r, w1) /\
    ggml_bitnet_cuda_is_available w = Some (r, w1) /\
    probe_count (trace w1) <= S (probe_count (trace w)) /\
    run l w1 = Some (tt, w2) /\
    load_count (trace w2) = load_count (trace w1) /\
    probe_count (trace w2) = probe_count (trace w1) /\
    ggml_bitnet_cuda_init w2 = Some (r, w2) /\
    ggml_bitnet_cuda_is_available w2 = Some (r, w2).
Proof.
  split; [apply reach_start |]. split; [reflexivity |].
  apply initialization_memoized; [apply reach_start | reflexivity].
Defined.

(** C4 on a machine whose module was loaded and used, then removed, and
    released by free: the next probe finds nothing. *)
Lemma absent_module_compute_untouched_witness :
  let w := after [Api CallInit;
                  Api (CallCompute 16%N 32%N 48%N 64%N 80%N 2%Z 4%Z 8%Z 96%N);
                  Outside os_absent zero_memory; Api CallFree]
                 (initial_world os_complete zero_memory) in
  reachable w /\ g_bitnet_initialized w = false /\
  fst (load_candidates (os w)) = NULL /\
  exists w1,
    ggml_bitnet_cuda_is_available w = Some (false, w1) /\
    ggml_bitnet_cuda_compute 16%N 32%N 48%N 64%N 80%N 2%Z 4%Z 8%Z 96%N w =
      Some (false, w1) /\
    heap w1 = heap w /\
    kernel_calls (trace w1) = kernel_calls (trace w) /\
    forall (input' weight' output' scale' weight_scale' : ptr)
           (M' N' K' : Z) (stream' : ptr),
      ggml_bitnet_cuda_compute input' weight' output' scale' weight_scale'
                               M' N' K' stream' w1 = Some (false, w1).
Proof.
  assert (Hr : reachable
                 (after [Api CallInit;
                         Api (CallCompute 16%N 32%N 48%N 64%N 80%N
                                          2%Z 4%Z 8%Z 96%N);
                         Outside os_absent zero_memory; Api CallFree]
                        (initial_world os_complete zero_memory)))
    by (apply reachable_after; apply reach_start).
  split; [exact Hr |]. split; [reflexivity |]. split; [reflexivity |].
  apply absent_module_compute_untouched;
    [exact Hr | reflexivity | reflexivity].
Defined.

(** C5 on a machine with a complete module, after a first availability
    query. *)
Lemma compute_pass_through_witness :
  let w := after [Api CallIsAvailable]
                 (initial_world os_complete zero_memory) in
  reachable w /\
  option_map fst (ggml_bitnet_cuda_is_available w) = Some true /\
  exists w1,
    ggml_bitnet_cuda_is_available w = Some (true, w1) /\
    g_bitlinear_kernel w1 <> NULL /\
    ggml_bitnet_cuda_compute 16%N 32%N 48%N 64%N 80%N 2%Z 4%Z 8%Z 96%N w =
      Some (true,
            mkWorld (g_bitnet_lib w1) (g_bitlinear_kernel w1)
              (g_bitnet_initialized w1) (g_bitnet_available w1)
              (fst (sys_call (g_bitlinear_kernel w1) 16%N 32%N 48%N 64%N 80%N
                             2%Z 4%Z 8%Z 96%N (os w1) (heap w1)))
              (snd (sys_call (g_bitlinear_kernel w1) 16%N 32%N 48%N 64%N 80%N
                             2%Z 4%Z 8%Z 96%N (os w1) (heap w1)))
              (trace w1 ++
               [EvKernelCall (g_bitlinear_kernel w1) 16%N 32%N 48%N 64%N 80%N
                             2%Z 4%Z 8%Z 96%N])).
Proof.
  assert (Hr : reachable (after [Api CallIsAvailable]
                                (initial_world os_complete zero_memory)))
    by (apply reachable_after; apply reach_start).
  split; [exact Hr |]. split; [reflexivity |].
  apply compute_pass_through; [exact Hr | reflexivity].
Defined.

(** C6 on a machine whose module lacks the symbol. *)
Lemma symbol_failure_unloads_witness :
  let w := initial_world os_no_symbol zero_memory in
  reachable w /\ g_bitnet_initialized w = false /\
  fst (load_candidates (os w)) <> NULL /\
  fst (resolve_symbol (os w)) = NULL /\
  exists w',
    ggml_bitnet_cuda_init w = Some (false, w') /\
    g_bitnet_lib w' = NULL /\ g_bitlinear_kernel w' = NULL /\
    g_bitnet_initialized w' = true /\ g_bitnet_available w' = false /\
    os w' = sys_close (fst (load_candidates (os w)))
                      (snd (resolve_symbol (os w))) /\
    trace w' =
      trace w ++ candidate_events (os w) ++
      [EvGetProcAddress (fst (load_candidates (os w))) KERNEL_SYMBOL NULL;
       EvStderr msg_symbol_error;
       EvCloseLibrary (fst (load_candidates (os w)))].
Proof.
  assert (Hl : fst (load_candidates
                      (os (initial_world os_no_symbol zero_memory))) <> NULL)
    by (vm_compute; discriminate).
  split; [apply reach_start |]. split; [reflexivity |].
  split; [exact Hl |]. split; [reflexivity |].
  apply symbol_failure_unloads;
    [apply reach_start | reflexivity | exact Hl | reflexivity].
Defined.

(** C7 on a machine with a complete module, after a successful init. *)
Lemma free_resets_state_witness :
  let w := after [Api CallInit] (initial_world os_complete zero_memory) in
  reachable w /\
  exists w',
    ggml_bitnet_cuda_free w = Some (tt, w') /\
    g_bitnet_lib w' = NULL /\ g_bitlinear_kernel w' = NULL /\
    g_bitnet_initialized w' = false /\ g_bitnet_available w' = false /\
    heap w' = heap w /\
    (g_bitnet_lib w <> NULL ->
     os w' = sys_close (g_bitnet_lib w) (os w) /\
     trace w' = trace w ++ [EvCloseLibrary (g_bitnet_lib w)]) /\
    (g_bitnet_lib w = NULL -> os w' = os w /\ trace w' = trace w) /\
    ggml_bitnet_cuda_free w' = Some (tt, w') /\
    exists r w2 tail,
      ggml_bitnet_cuda_init w' = Some (r, w2) /\
      trace w2 = trace w' ++ candidate_events (os w') ++ tail /\
      probe_count (trace w2) = S (probe_count (trace w')).
Proof.
  assert (Hr : reachable (after [Api CallInit]
                                (initial_world os_complete zero_memory)))
    by (apply reachable_after; apply reach_start).
  split; [exact Hr |].
  apply free_resets_state. exact Hr.
Defined.

(** C9 on a machine whose module lacks the symbol, after the failed init,
    for a call of compute. *)
Lemma binding_invariant_preserved_witness :
  let w := after [Api CallInit] (initial_world os_no_symbol zero_memory) in
  let a := Api (CallCompute 16%N 32%N 48%N 64%N 80%N 2%Z 4%Z 8%Z 96%N) in
  reachable w /\
  binding_invariant w /\
  exists w', step a w = Some (tt, w') /\ binding_invariant w'.
Proof.
  assert (Hr : reachable (after [Api CallInit]
                                (initial_world os_no_symbol zero_memory)))
    by (apply reachable_after; apply reach_start).
  split; [exact Hr |].
  apply binding_invariant_preserved. exact Hr.
Defined.

(** ** The further properties on the test double *)

(** The monitor is not vacuous: it refuses a kernel call after the close
    of the module, a second load while one is held, and a second close. *)
Example protocol_refuses_call_after_close :
  protocol (NULL, NULL)
           [EvLoadLibrary "libbitnet.so" stub_handle;
            EvGetProcAddress stub_handle KERNEL_SYMBOL stub_entry;
            EvCloseLibrary stub_handle;
            EvKernelCall stub_entry 16%N 32%N 48%N 64%N 80%N 2%Z 4%Z 8%Z
                         96%N] = None.
Proof. reflexivity. Qed.

Example protocol_refuses_load_while_held :
  protocol (NULL, NULL)
           [EvLoadLibrary "libbitnet.so" stub_handle;
            EvLoadLibrary "libbitnet.so" stub_handle] = None.
Proof. reflexivity. Qed.

Example protocol_refuses_double_close :
  protocol (NULL, NULL)
           [EvLoadLibrary "libbitnet.so" stub_handle;
            EvCloseLibrary stub_handle; EvCloseLibrary stub_handle] = None.
Proof. reflexivity. Qed.

(** X1 after a load, a kernel call, a release and a second load. *)
Lemma loader_protocol_respected_witness :
  let w := after [Api CallInit;
                  Api (CallCompute 16%N 32%N 48%N 64%N 80%N 2%Z 4%Z 8%Z 96%N);
                  Api CallFree; Api CallInit]
                 (initial_world os_complete zero_memory) in
  reachable w /\
  protocol (NULL, NULL) (trace w) =
  Some (g_bitnet_lib w, g_bitlinear_kernel w).
Proof.
  assert (Hr : reachable
                 (after [Api CallInit;
                         Api (CallCompute 16%N 32%N 48%N 64%N 80%N
                                          2%Z 4%Z 8%Z 96%N);
                         Api CallFree; Api CallInit]
                        (initial_world os_complete zero_memory)))
    by (apply reachable_after; apply reach_start).
  split; [exact Hr |].
  apply loader_protocol_respected. exact Hr.
Defined.

(** X2 after a load, a release and a second load by is_available. *)
Lemma loaded_modules_balance_witness :
  let w := after [Api CallInit; Api CallFree; Api CallIsAvailable]
                 (initial_world os_complete zero_memory) in
  reachable w /\
  count_events is_opened (trace w) =
  count_events is_close (trace w) + holds (g_bitnet_lib w).
Proof.
  assert (Hr : reachable
                 (after [Api CallInit; Api CallFree; Api CallIsAvailable]
                        (initial_world os_complete zero_memory)))
    by (apply reachable_after; apply reach_start).
  split; [exact Hr |].
  apply loaded_modules_balance. exact Hr.
Defined.

(** X3 for a call of compute at process start, with a complete module. *)
Lemma memory_written_only_by_kernel_witness :
  let w := initial_world os_complete zero_memory in
  let c := CallCompute 16%N 32%N 48%N 64%N 80%N 2%Z 4%Z 8%Z 96%N in
  reachable w /\
  exists w',
    exec c w = Some (tt, w') /\
    ((heap w' = heap w /\
      kernel_calls (trace w') = kernel_calls (trace w)) \/
     (exists input weight output scale weight_scale M N K stream w1,
        c = CallCompute input weight output scale weight_scale M N K stream /\
        ggml_bitnet_cuda_is_available w = Some (true, w1) /\
        g_bitlinear_kernel w' <> NULL /\
        kernel_calls (trace w') =
        kernel_calls (trace w) ++
        [EvKernelCall (g_bitlinear_kernel w') input weight output scale
                      weight_scale M N K stream] /\
        heap w' =
        snd (sys_call (g_bitlinear_kernel w') input weight output scale
                      weight_scale M N K stream (os w1) (heap w)) /\
        os w' =
        fst (sys_call (g_bitlinear_kernel w') input weight output scale
                      weight_scale M N K stream (os w1) (heap w)))).
Proof.
  split; [apply reach_start |].
  apply memory_written_only_by_kernel. apply reach_start.
Defined.

(** X4 at process start, with a complete module. *)
Lemma explicit_init_redundant_witness :
  let w := initial_world os_complete zero_memory in
  reachable w /\
  bind ggml_bitnet_cuda_init
       (fun _ => ggml_bitnet_cuda_compute 16%N 32%N 48%N 64%N 80%N
                                          2%Z 4%Z 8%Z 96%N) w =
  ggml_bitnet_cuda_compute 16%N 32%N 48%N 64%N 80%N 2%Z 4%Z 8%Z 96%N w /\
  bind ggml_bitnet_cuda_is_available
       (fun _ => ggml_bitnet_cuda_compute 16%N 32%N 48%N 64%N 80%N
                                          2%Z 4%Z 8%Z 96%N) w =
  ggml_bitnet_cuda_compute 16%N 32%N 48%N 64%N 80%N 2%Z 4%Z 8%Z 96%N w /\
  bind ggml_bitnet_cuda_init
       (fun _ => ggml_should_use_bitnet_cuda 112%N) w =
  ggml_should_use_bitnet_cuda 112%N w.
Proof.
  split; [apply reach_start |].
  apply explicit_init_redundant. apply reach_start.
Defined.

(** The block structure is not vacuous: a diagnostic line on its own is
    no block, and neither a trace with a diagnostic line after a close
    nor a probe run with three loads splits into blocks. *)
Example lone_stderr_is_no_block :
  ~ block (P := stub_posix) [EvStderr "late"].
Proof.
  intros Hb. inversion Hb as [b Hp | |]; subst.
  inversion Hp as [| first h | first h f]; try destruct first; discriminate.
Qed.

Example stderr_after_close_is_no_trace :
  forall bs,
    Forall (block (P := stub_posix)) bs ->
    List.concat bs <> [EvCloseLibrary stub_handle; EvStderr "late"].
Proof.
  intros bs Hbs Hc.
  destruct bs as [| b bs]; [discriminate |].
  inversion Hbs as [| ? ? Hb Hbs']; subst.
  inversion Hb as [b0 Hp | h Hh |]; subst.
  - inversion Hp as [| first h | first h f]; subst;
      try destruct first; discriminate.
  - cbn in Hc. inversion Hc as [[Hh' Hrest]].
    destruct bs as [| b' bs']; [discriminate |].
    inversion Hbs' as [| ? ? Hb' _]; subst.
    inversion Hb' as [b0 Hp | |]; subst; try discriminate.
    inversion Hp as [| first h' | first h' f]; subst;
      try destruct first; discriminate.
  - discriminate.
Qed.

Example three_loads_is_no_trace :
  forall bs,
    Forall (block (P := stub_posix)) bs ->
    List.concat bs <>
    [EvLoadLibrary "libbitnet.so" NULL;
     EvLoadLibrary "./libs/linux/bitnet-kernel/libbitnet.so" NULL;
     EvLoadLibrary "./libs/linux/bitnet-kernel/libbitnet.so" NULL;
     EvStderr msg_load_warning; EvStderr msg_fallback_cpu].
Proof.
  intros bs Hbs Hc.
  destruct bs as [| b bs]; [discriminate |].
  inversion Hbs as [| ? ? Hb Hbs']; subst.
  inversion Hb as [b0 Hp | |]; subst; try discriminate.
  inversion Hp as [| first h Hh | first h f Hh Hf]; subst;
    try destruct first; try discriminate;
    cbn in Hc; inversion Hc; subst; contradiction.
Qed.

(** X5 after two failed probes of a module that lacks the symbol. *)
Lemma trace_is_sequence_of_blocks_witness :
  let w := after [Api CallInit; Api CallIsAvailable; Api CallFree;
                  Api CallInit]
                 (initial_world os_no_symbol zero_memory) in
  reachable w /\
  exists bs, Forall block bs /\ trace w = List.concat bs.
Proof.
  assert (Hr : reachable
                 (after [Api CallInit; Api CallIsAvailable; Api CallFree;
                         Api CallInit]
                        (initial_world os_no_symbol zero_memory)))
    by (apply reachable_after; apply reach_start).
  split; [exact Hr |].
  apply trace_is_sequence_of_blocks. exact Hr.
Defined.

(** X6 after a failed probe followed by the installation of the module. *)
Lemma free_then_init_decides_afresh_witness :
  let w := after [Api CallInit; Outside os_complete zero_memory]
                 (initial_world os_absent zero_memory) in
  reachable w /\
  exists w1 r w2,
    ggml_bitnet_cuda_free w = Some (tt, w1) /\
    os w1 = (if is_null (g_bitnet_lib w) then os w
             else sys_close (g_bitnet_lib w) (os w)) /\
    ggml_bitnet_cuda_init w1 = Some (r, w2) /\
    (r = true <->
     fst (load_candidates (os w1)) <> NULL /\
     fst (resolve_symbol (os w1)) <> NULL) /\
    g_bitnet_available w2 = r.
Proof.
  assert (Hr : reachable
                 (after [Api CallInit; Outside os_complete zero_memory]
                        (initial_world os_absent zero_memory)))
    by (apply reachable_after; apply reach_start).
  split; [exact Hr |].
  apply free_then_init_decides_afresh. exact Hr.
Defined.

(** X7 for free in the Ready phase. *)
Lemma life_cycle_state_machine_witness :
  let w := after [Api CallInit] (initial_world os_complete zero_memory) in
  let a := Api CallFree in
  reachable w /\
  exists p w' p',
    phase_of w = Some p /\
    step a w = Some (tt, w') /\
    phase_of w' = Some p' /\
    In p' (successors a p).
Proof.
  assert (Hr : reachable (after [Api CallInit]
                                (initial_world os_complete zero_memory)))
    by (apply reachable_after; apply reach_start).
  split; [exact Hr |].
  apply life_cycle_state_machine. exact Hr.
Defined.
